(** * casic: the front end's request and error pipeline

    A shallow embedding of

    - [frontend/lib/errors.ts]: [ApiError], [ApiError.fromResponse],
      [handleApiError], [withErrorHandler];
    - [frontend/lib/api.ts]: the token store and the selected table,
      [mergeHeaders], [request], [apiJson], [apiText], [apiBlob],
      [apiFetch], [apiDownload];
    - the two route handlers [GET] that proxy [/api/admin/day-summary]
      and [/api/admin/export-report].

    The TypeScript is embedded together with the part of ECMAScript and of
    the Fetch standard that its behaviour depends on: truthiness, string
    conversion, [JSON.stringify], header lists with case-insensitive
    names, and response bodies that can be read only once. *)

From Stdlib Require Import String Ascii ZArith List DecimalString.
From stdpp Require Import base option list sorting strings gmap.

Local Open Scope string_scope.
Local Open Scope Z_scope.

(** * ECMAScript values *)

(** The values the program inspects: plain data. A number is kept as
    its canonical decimal rendering (what [Number::toString] returns),
    which determines the number up to the sign of zero; nothing below
    tells [0] from [-0]. An object is its own enumerable data properties
    in creation order, with [Object.prototype] as prototype; keys are
    pairwise distinct in a real object. [VCycle] is a reference from
    inside an object or an array back to a container that encloses it.
    Functions, symbols, accessor properties, [toJSON] methods and proxies
    are not values of this type: what is proved of every [value] is
    proved of plain data, and is stated so. *)
#[local] Unset Elimination Schemes.
Inductive value : Type :=
| VUndefined
| VNull
| VBool (b : bool)
| VNumber (repr : string)
| VBigInt (z : Z)
| VString (s : string)
| VArray (elems : list value)
| VObject (props : list (string * value))
| VCycle.
#[local] Set Elimination Schemes.

(** [class ApiError extends Error]: the three fields the constructor
    stores. [details] is [VUndefined] when absent. *)
Record ApiError : Type := mkApiError {
  message : string;
  status : Z;
  details : value
}.

(** What a [throw] can carry and a [catch] can receive: plain data, an
    instance of the built-in [Error] (or of one of its built-in
    subclasses, named by [name]) or an instance of [ApiError]. *)
Inductive thrown : Type :=
| TValue (v : value)
| TError (name : string) (msg : string)
| TApiError (e : ApiError).

(** A completion: normal return or a thrown value. *)
Inductive completion (A : Type) : Type :=
| Return (a : A)
| Throw (e : thrown).
Arguments Return {A} a.
Arguments Throw {A} e.

#[global] Instance completion_ret : MRet completion := fun A a => Return a.
#[global] Instance completion_bind : MBind completion := fun A B f m =>
  match m with
  | Return a => f a
  | Throw e => Throw e
  end.

(** [try { m } catch (e) { h e }] *)
Definition try_catch {A} (m : completion A) (h : thrown -> completion A) : completion A :=
  match m with
  | Return a => Return a
  | Throw e => h e
  end.

(** The wording of the engine's own error messages (V8 and Node's fetch);
    the program only passes these texts on. *)
Definition msg_to_primitive : string := "Cannot convert object to primitive value".
Definition msg_bigint : string := "Do not know how to serialize a BigInt".
Definition msg_cyclic : string := "Converting circular structure to JSON".
Definition msg_json_parse : string := "Unexpected token in JSON".
Definition msg_body_unusable : string := "Body is unusable".
Definition msg_status_range : string := "init[status] must be in the range of 200 to 599, inclusive.".
Definition msg_null_body_status : string := "Invalid response status code".
Definition msg_not_serializable : string := "Value is not JSON serializable".

Definition TypeError (m : string) : thrown := TError "TypeError" m.
Definition RangeError (m : string) : thrown := TError "RangeError" m.
Definition SyntaxError (m : string) : thrown := TError "SyntaxError" m.

(** ** Truthiness, [typeof], property reads *)

(** ToBoolean *)
Definition truthy (v : value) : bool :=
  match v with
  | VUndefined | VNull => false
  | VBool b => b
  | VNumber r => negb (String.eqb r "0" || String.eqb r "NaN")
  | VBigInt z => negb (z =? 0)
  | VString s => negb (String.eqb s "")
  | VArray _ | VObject _ | VCycle => true
  end.

(** [a || b] *)
Definition or_else (a b : value) : value := if truthy a then a else b.

Inductive type_tag : Type :=
| TyUndefined | TyObject | TyBoolean | TyNumber | TyBigInt | TyString.

#[global] Instance type_tag_eq_dec : EqDecision type_tag.
Proof. solve_decision. Defined.

Definition typeof (v : value) : type_tag :=
  match v with
  | VUndefined => TyUndefined
  | VNull | VArray _ | VObject _ | VCycle => TyObject
  | VBool _ => TyBoolean
  | VNumber _ => TyNumber
  | VBigInt _ => TyBigInt
  | VString _ => TyString
  end.

Definition is_string (v : value) : bool :=
  match v with VString _ => true | _ => false end.

Fixpoint lookup_prop (k : string) (props : list (string * value)) : option value :=
  match props with
  | [] => None
  | (k', v) :: rest => if String.eqb k k' then Some v else lookup_prop k rest
  end.

Definition has_own (k : string) (props : list (string * value)) : bool :=
  match lookup_prop k props with Some _ => true | None => false end.

(** [k in v] for an object-typed [v] and a name [k] that no built-in
    prototype defines ([message] in this program). *)
Definition has_property (k : string) (v : value) : bool :=
  match v with
  | VObject props => has_own k props
  | _ => false
  end.

(** [v.k] for a [v] other than [undefined] and [null] and a name [k] that
    no built-in prototype defines ([detail] and [message] in this
    program): the own property of a plain object, [undefined] elsewhere. *)
Definition get_member (k : string) (v : value) : value :=
  match v with
  | VObject props => match lookup_prop k props with Some x => x | None => VUndefined end
  | _ => VUndefined
  end.

(** [v?.k] *)
Definition optional_member (k : string) (v : value) : value :=
  match v with
  | VUndefined | VNull => VUndefined
  | _ => get_member k v
  end.

(** ** String conversion *)

Definition string_of_Z (z : Z) : string := NilZero.string_of_int (Z.to_int z).

(** ToString. An array is joined with commas, [undefined] and [null]
    elements rendering as the empty string. A plain object goes through
    OrdinaryToPrimitive: an own data property [toString] shadows
    [Object.prototype.toString] and is not callable, [valueOf] then
    returns the object itself or is shadowed too, and the conversion
    throws; otherwise the result is the text [[object Object]]. *)
Fixpoint ToString (v : value) : completion string :=
  match v with
  | VUndefined => Return "undefined"
  | VNull => Return "null"
  | VBool b => Return (if b then "true" else "false")
  | VNumber r => Return r
  | VBigInt z => Return (string_of_Z z)
  | VString s => Return s
  | VArray elems =>
      let fix join (l : list value) : completion (list string) :=
        match l with
        | [] => Return []
        | x :: rest =>
            match (match x with
                   | VUndefined | VNull => Return ""
                   | _ => ToString x
                   end) with
            | Throw e => Throw e
            | Return s =>
                match join rest with
                | Throw e => Throw e
                | Return ss => Return (s :: ss)
                end
            end
        end in
      match join elems with
      | Throw e => Throw e
      | Return ss => Return (String.concat "," ss)
      end
  | VObject props =>
      if has_own "toString" props
      then Throw (TypeError msg_to_primitive)
      else Return "[object Object]"
  | VCycle => Return "[object Object]"
  end.

(** ** [JSON.stringify] *)

Definition dquote : ascii := "034"%char.
Definition backslash : ascii := "092"%char.

Definition hex_digit (n : nat) : ascii :=
  match n with
  | 0 => "0" | 1 => "1" | 2 => "2" | 3 => "3" | 4 => "4" | 5 => "5"
  | 6 => "6" | 7 => "7" | 8 => "8" | 9 => "9" | 10 => "a" | 11 => "b"
  | 12 => "c" | 13 => "d" | 14 => "e" | _ => "f"
  end%nat%char.

(** The escape of one code unit in QuoteJSONString. *)
Definition quote_char (c : ascii) : string :=
  let n := nat_of_ascii c in
  if Nat.eqb n 34 then String backslash (String dquote EmptyString)
  else if Nat.eqb n 92 then String backslash (String backslash EmptyString)
  else if Nat.eqb n 8 then String backslash "b"
  else if Nat.eqb n 12 then String backslash "f"
  else if Nat.eqb n 10 then String backslash "n"
  else if Nat.eqb n 13 then String backslash "r"
  else if Nat.eqb n 9 then String backslash "t"
  else if Nat.ltb n 32
       then String backslash
              ("u00" ++ String (hex_digit (n / 16)) (String (hex_digit (n mod 16)) EmptyString))
  else String c EmptyString.

Fixpoint quote_chars (s : string) : string :=
  match s with
  | EmptyString => EmptyString
  | String c rest => quote_char c ++ quote_chars rest
  end.

Definition QuoteJSONString (s : string) : string :=
  String dquote (quote_chars s ++ String dquote EmptyString).

Definition is_finite (repr : string) : bool :=
  negb (String.eqb repr "NaN" || String.eqb repr "Infinity" || String.eqb repr "-Infinity").

(** The array index that a property key spells, if any: a canonical
    decimal numeral (no leading zero, no sign) below [2^32 - 1]. *)
Definition digit_of (c : ascii) : option N :=
  let n := N_of_ascii c in
  if ((48 <=? n) && (n <=? 57))%N then Some (n - 48)%N else None.

Fixpoint digits_value (s : string) (acc : N) : option N :=
  match s with
  | EmptyString => Some acc
  | String c rest =>
      match digit_of c with
      | Some d => digits_value rest (10 * acc + d)%N
      | None => None
      end
  end.

Definition array_index (k : string) : option N :=
  match k with
  | EmptyString => None
  | String c rest =>
      if Ascii.eqb c "0" && negb (String.eqb rest "") then None
      else
        match digits_value k 0%N with
        | Some n => if (n <=? 4294967294)%N then Some n else None
        | None => None
        end
  end.

(** The order in which the own properties of an object are listed
    (OrdinaryOwnPropertyKeys): the array indices in ascending order, then
    the other keys in the order of their creation. *)
Fixpoint insert_by_index {A} (n : N) (p : string * A) (l : list (N * (string * A)))
    : list (N * (string * A)) :=
  match l with
  | [] => [(n, p)]
  | (m, q) :: rest =>
      if (n <=? m)%N then (n, p) :: l else (m, q) :: insert_by_index n p rest
  end.

Fixpoint indexed_properties {A} (props : list (string * A)) : list (N * (string * A)) :=
  match props with
  | [] => []
  | p :: rest =>
      match array_index p.1 with
      | Some n => insert_by_index n p (indexed_properties rest)
      | None => indexed_properties rest
      end
  end.

Fixpoint named_properties {A} (props : list (string * A)) : list (string * A) :=
  match props with
  | [] => []
  | p :: rest =>
      match array_index p.1 with
      | Some _ => named_properties rest
      | None => p :: named_properties rest
      end
  end.

Definition own_property_order {A} (props : list (string * A)) : list (string * A) :=
  (List.map snd (indexed_properties props) ++ named_properties props)%list.

(** The members of a serialized object, from the serializations of its
    properties taken in order: the first that throws ends the
    serialization, and a property whose value serializes to [undefined]
    is left out. *)
Fixpoint serialized_members (l : list (string * completion (option string)))
    : completion (list string) :=
  match l with
  | [] => Return []
  | (k, c) :: rest =>
      match c with
      | Throw e => Throw e
      | Return o =>
          match serialized_members rest with
          | Throw e => Throw e
          | Return ss =>
              Return (match o with
                      | Some s => (QuoteJSONString k ++ ":" ++ s) :: ss
                      | None => ss
                      end)
          end
      end
  end.

(** SerializeJSONProperty on a value; [None] is [undefined]. No value of
    the model has a callable [toJSON]. The properties of an object are
    serialized in the order in which the object lists them; a property
    whose value serializes to [undefined] is left out of an object and is
    [null] in an array; a BigInt and a reference back to an enclosing
    container throw. *)
Fixpoint serialize (v : value) : completion (option string) :=
  match v with
  | VUndefined => Return None
  | VNull => Return (Some "null")
  | VBool b => Return (Some (if b then "true" else "false"))
  | VNumber r => Return (Some (if is_finite r then r else "null"))
  | VBigInt _ => Throw (TypeError msg_bigint)
  | VString s => Return (Some (QuoteJSONString s))
  | VArray elems =>
      let fix items (l : list value) : completion (list string) :=
        match l with
        | [] => Return []
        | x :: rest =>
            match serialize x with
            | Throw e => Throw e
            | Return o =>
                match items rest with
                | Throw e => Throw e
                | Return ss => Return (default "null" o :: ss)
                end
            end
        end in
      match items elems with
      | Throw e => Throw e
      | Return ss => Return (Some ("[" ++ String.concat "," ss ++ "]"))
      end
  | VObject props =>
      let fix each (l : list (string * value))
          : list (string * completion (option string)) :=
        match l with
        | [] => []
        | (k, x) :: rest => (k, serialize x) :: each rest
        end in
      match serialized_members (own_property_order (each props)) with
      | Throw e => Throw e
      | Return ss => Return (Some ("{" ++ String.concat "," ss ++ "}"))
      end
  | VCycle => Throw (TypeError msg_cyclic)
  end.

(** [JSON.stringify(v)] *)
Definition JSON_stringify (v : value) : completion (option string) := serialize v.

(** * Header lists *)

(** A [Headers] object of the Fetch standard holds a header list: names
    and values in order, names comparing without regard to ASCII case.
    Names and values are taken to be valid field names and values (the
    platform rejects the others with a [TypeError] before the program
    sees them), and values to carry no surrounding white space. *)
Abbreviation Headers := (list (string * string)).

Definition lower_char (c : ascii) : ascii :=
  let n := nat_of_ascii c in
  if (Nat.leb 65 n && Nat.leb n 90)%bool then ascii_of_nat (n + 32) else c.

(** Byte-lowercase. *)
Fixpoint lower (s : string) : string :=
  match s with
  | EmptyString => EmptyString
  | String c rest => String (lower_char c) (lower rest)
  end.

(** The headers of [h] named [name], whatever their case. *)
Definition named (name : string) (h : Headers) : Headers :=
  filter (fun p => lower p.1 = lower name) h.

Definition values_of (name : string) (h : Headers) : list string :=
  (named name h).*2.

(** [h.get(name)]: [None] is [null]; several values are joined by a comma
    and a space. *)
Definition Headers_get (name : string) (h : Headers) : option string :=
  match values_of name h with
  | [] => None
  | vs => Some (String.concat ", " vs)
  end.

(** [h.has(name)] *)
Definition Headers_has (name : string) (h : Headers) : bool :=
  match values_of name h with
  | [] => false
  | _ => true
  end.

(** [h.append(name, value)]: a name already in the list is written the
    way its first header writes it. *)
Definition Headers_append (name val : string) (h : Headers) : Headers :=
  let name' :=
    match named name h with
    | p :: _ => p.1
    | [] => name
    end in
  (h ++ [(name', val)])%list.

(** [h.delete(name)] *)
Definition Headers_delete (name : string) (h : Headers) : Headers :=
  filter (fun p => lower p.1 <> lower name) h.

Fixpoint set_first (name val : string) (h : Headers) : Headers :=
  match h with
  | [] => []
  | (k, x) :: rest =>
      if String.eqb (lower k) (lower name)
      then (k, val) :: Headers_delete name rest
      else (k, x) :: set_first name val rest
  end.

(** [h.set(name, value)]: the first header of that name takes the value
    and the others are removed; a new name is appended. *)
Definition Headers_set (name val : string) (h : Headers) : Headers :=
  if Headers_has name h then set_first name val h
  else Headers_append name val h.

Definition string_le (a b : string) : Prop := String.leb a b = true.

#[global] Instance string_le_dec a b : Decision (string_le a b).
Proof. unfold string_le. apply _. Defined.

(** The lowercased names of a header list, each once, in code-unit
    order. *)
Definition sorted_names (h : Headers) : list string :=
  merge_sort string_le (remove_dups (lower <$> h.*1)).

(** Iteration over a [Headers] object (sort and combine): one entry per
    name in sorted order with its values joined, except [set-cookie],
    whose values stay apart. *)
Definition Headers_entries (h : Headers) : list (string * string) :=
  flat_map
    (fun n =>
       if String.eqb n "set-cookie"
       then map (fun v => (n, v)) (values_of n h)
       else [(n, String.concat ", " (values_of n h))])
    (sorted_names h).

(** What [new Headers(init)] accepts. *)
Inductive HeadersInit : Type :=
| InitArray (pairs : list (string * string))
| InitHeaders (h : Headers)
| InitRecord (o : list (string * string)).

Definition Headers_fill (pairs : list (string * string)) (h : Headers) : Headers :=
  fold_left (fun acc p => Headers_append p.1 p.2 acc) pairs h.

(** [new Headers(init)]; a [Headers] argument is read through its
    iterator. *)
Definition Headers_new (init : option HeadersInit) : Headers :=
  match init with
  | None => []
  | Some (InitArray pairs) => Headers_fill pairs []
  | Some (InitHeaders h) => Headers_fill (Headers_entries h) []
  | Some (InitRecord o) => Headers_fill o []
  end.

(** * Plain objects used as string records *)

(** [Record<string, string>]: own properties in creation order. *)
Abbreviation JSObject := (list (string * string)) (only parsing).

Fixpoint update_or_add (k v : string) (o : JSObject) : JSObject :=
  match o with
  | [] => [(k, v)]
  | (k', x) :: rest =>
      if String.eqb k' k then (k', v) :: rest
      else (k', x) :: update_or_add k v rest
  end.

(** [o[k] = v] on an ordinary object: the name [__proto__] reaches the
    setter inherited from [Object.prototype], which ignores a string. *)
Definition obj_set (k v : string) (o : JSObject) : JSObject :=
  if String.eqb k "__proto__" then o else update_or_add k v o.

(** [Object.assign(target, source)] *)
Definition Object_assign (target source : JSObject) : JSObject :=
  fold_left (fun o p => obj_set p.1 p.2 o) source target.

(** * Responses and their bodies *)

(** What reading a body stream to its end yields: bytes that decode to
    [text], together with what [JSON.parse] makes of that text ([CJson]
    when it parses, to [json]; [CText] when it does not), or the error
    the stream fails with. *)
Inductive content : Type :=
| CJson (text : string) (json : value)
| CText (text : string)
| CError (e : thrown).

(** A body stream is read once: reading disturbs it. *)
Record ReadableStream : Type := mkStream {
  stream_content : content;
  disturbed : bool
}.

(** A [Response] of the Fetch standard; [res_body] is [None] for the null
    body. *)
Record Response : Type := mkResponse {
  res_status : Z;
  res_statusText : string;
  res_headers : Headers;
  res_body : option ReadableStream
}.

(** [res.ok] *)
Definition res_ok (res : Response) : bool :=
  (200 <=? res_status res) && (res_status res <=? 299).

Definition with_body (res : Response) (b : option ReadableStream) : Response :=
  mkResponse (res_status res) (res_statusText res) (res_headers res) b.

(** Consume body: a null body reads as no bytes; a disturbed stream is
    unusable; otherwise the stream is read to its end and left
    disturbed. The response after the read is returned with the result. *)
Definition consume_body (res : Response) : completion content * Response :=
  match res_body res with
  | None => (Return (CText ""), res)
  | Some s =>
      if disturbed s then (Throw (TypeError msg_body_unusable), res)
      else
        let res' := with_body res (Some (mkStream (stream_content s) true)) in
        match stream_content s with
        | CError e => (Throw e, res')
        | c => (Return c, res')
        end
  end.

(** [res.json()] *)
Definition Response_json (res : Response) : completion value * Response :=
  match consume_body res with
  | (Return (CJson _ json), res') => (Return json, res')
  | (Return (CText _), res') => (Throw (SyntaxError msg_json_parse), res')
  | (Return (CError e), res') => (Throw e, res')
  | (Throw e, res') => (Throw e, res')
  end.

(** [res.text()] *)
Definition Response_text (res : Response) : completion string * Response :=
  match consume_body res with
  | (Return (CJson text _), res') => (Return text, res')
  | (Return (CText text), res') => (Return text, res')
  | (Return (CError e), res') => (Throw e, res')
  | (Throw e, res') => (Throw e, res')
  end.

(** [haystack.includes(needle)] *)
Fixpoint includes (needle haystack : string) : bool :=
  String.prefix needle haystack ||
  match haystack with
  | EmptyString => false
  | String _ rest => includes needle rest
  end.

(** * The world: storage, environment, network, console *)

Inductive Url : Type :=
| UrlString (s : string)
| UrlResolve (rel base : string).

(** The members of [RequestInit] the program sets or passes on. *)
Record RequestInit : Type := mkInit {
  init_method : option string;
  init_headers : option HeadersInit;
  init_body : option string;
  init_credentials : option string;
  init_cache : option string
}.

Definition no_init : RequestInit := mkInit None None None None None.

(** One call of [fetch]. *)
Record FetchCall : Type := mkCall {
  call_url : Url;
  call_init : RequestInit
}.

(** The header list of the request that [fetch] builds for a call. *)
Definition call_headers (c : FetchCall) : Headers :=
  Headers_new (init_headers (call_init c)).

(** [window] is [None] where there is no [window] (on the server),
    otherwise the content of [window.localStorage]; [env] is
    [process.env]; [network] is what the other end does with a call;
    [sent] records the calls of [fetch] and [console] those of
    [console.error]. *)
Record World : Type := mkWorld {
  window : option (gmap string string);
  env : gmap string string;
  network : FetchCall -> completion Response;
  sent : list FetchCall;
  console : list (string * thrown)
}.

(** Computations of the program: they read and change the world and
    return or throw. *)
Definition M (A : Type) : Type := World -> completion A * World.

Definition retM {A} (a : A) : M A := fun w => (Return a, w).
Definition throwM {A} (e : thrown) : M A := fun w => (Throw e, w).
Definition liftM {A} (c : completion A) : M A := fun w => (c, w).
Definition bindM {A B} (m : M A) (k : A -> M B) : M B := fun w =>
  match m w with
  | (Return a, w') => k a w'
  | (Throw e, w') => (Throw e, w')
  end.
Definition catchM {A} (m : M A) (h : thrown -> M A) : M A := fun w =>
  match m w with
  | (Return a, w') => (Return a, w')
  | (Throw e, w') => h e w'
  end.

#[global] Instance M_ret : MRet M := @retM.
#[global] Instance M_bind : MBind M := fun A B k m => bindM m k.

(** [fetch(url, init)] *)
Definition fetch (url : Url) (init : RequestInit) : M Response := fun w =>
  let call := mkCall url init in
  (network w call,
   mkWorld (window w) (env w) (network w) (sent w ++ [call])%list (console w)).

(** [console.error(label, error)] *)
Definition console_error (label : string) (error : thrown) : M unit := fun w =>
  (Return tt,
   mkWorld (window w) (env w) (network w) (sent w) (console w ++ [(label, error)])%list).

(** [process.env.NAME || fallback] *)
Definition env_or (name : string) (fallback : string) (w : World) : string :=
  match env w !! name with
  | Some s => if String.eqb s "" then fallback else s
  | None => fallback
  end.

(** * frontend/lib/errors.ts *)

(** [new ApiError(message, status, details)]: the [Error] constructor
    converts a [message] other than [undefined] to a string, and leaves
    the inherited empty message otherwise. *)
Definition ApiError_new (msg : value) (st : Z) (det : value) : completion ApiError :=
  s ← (match msg with
       | VUndefined => Return ""
       | _ => ToString msg
       end);
  Return (mkApiError s st det).

Definition default_message (res : Response) : string :=
  "API " ++ string_of_Z (res_status res) ++ ": " ++ res_statusText res.

(** [ApiError.fromResponse(res)]. The pair is ([message], [details]) at the
    end of the [try] statement. *)
Definition fromResponse (res : Response) : completion ApiError :=
  let message := VString (default_message res) in
  let details := VUndefined in
  let '(message, details) :=
    let contentType := default "" (Headers_get "content-type" (res_headers res)) in
    if includes "application/json" contentType then
      match Response_json res with
      | (Return json, _) =>
          (or_else (or_else (optional_member "detail" json)
                      (optional_member "message" json)) message, json)
      | (Throw _, _) => (message, details)
      end
    else
      match Response_text res with
      | (Return text, _) => (or_else (VString text) message, VString text)
      | (Throw _, _) => (message, details)
      end in
  ApiError_new message (res_status res) details.

Definition fallback_text : string := "Ошибка".

(** [handleApiError(error)]; the result is a value because
    [JSON.stringify] can return [undefined]. *)
Definition handleApiError (error : thrown) : completion value :=
  match error with
  | TApiError e => Return (VString (message e))
  | TError _ m => Return (VString m)
  | TValue v =>
      if is_string v then Return v
      else if truthy v && bool_decide (typeof v = TyObject) && has_property "message" v then
        let m := get_member "message" v in
        Return (if is_string m then m else VString fallback_text)
      else
        try_catch
          (s ← JSON_stringify v;
           Return (match s with Some t => VString t | None => VUndefined end))
          (fun _ => Return (VString fallback_text))
  end.

(** [withErrorHandler(fn, onError)]; [None] in the result is [null], and
    an absent [onError] is [None]. *)
Definition withErrorHandler {T R : Type}
    (fn : T -> M R) (onError : option (thrown -> M unit)) : T -> M (option R) :=
  fun args =>
    catchM
      (r ← fn args; retM (Some r))
      (fun error =>
         (match onError with
          | Some h => h error
          | None => retM tt
          end) ;;
         console_error "Error in wrapped function:" error ;;
         retM None).

(** * frontend/lib/api.ts *)

Definition readM {A} (f : World -> A) : M A := fun w => (Return (f w), w).

Definition getApiUrl (w : World) : string :=
  env_or "NEXT_PUBLIC_API_URL" "http://localhost:8000" w.

Definition API : World -> string := getApiUrl.
Definition TOKEN_KEY : string := "cm_access_token".

(** [getToken()]; [None] is [null]. *)
Definition getToken : M (option string) :=
  readM (fun w =>
    match window w with
    | None => None
    | Some storage => storage !! TOKEN_KEY
    end).

Definition setToken (token : string) : M unit := fun w =>
  match window w with
  | None => (Return tt, w)
  | Some storage =>
      (Return tt,
       mkWorld (Some (<[TOKEN_KEY := token]> storage)) (env w) (network w) (sent w) (console w))
  end.

Definition clearToken : M unit := fun w =>
  match window w with
  | None => (Return tt, w)
  | Some storage =>
      (Return tt,
       mkWorld (Some (delete TOKEN_KEY storage)) (env w) (network w) (sent w) (console w))
  end.

(** [mergeHeaders(a, b)] *)
Definition mergeHeaders (a : option HeadersInit) (b : JSObject) : JSObject :=
  let out : JSObject := [] in
  let out :=
    match a with
    | None => out
    | Some (InitArray pairs) => fold_left (fun o p => obj_set p.1 p.2 o) pairs out
    | Some (InitHeaders h) => fold_left (fun o p => obj_set p.1 p.2 o) (Headers_entries h) out
    | Some (InitRecord o) => Object_assign out o
    end in
  Object_assign out b.

(** The object literal that [request] passes as [b]. *)
Definition injected (token : option string) : JSObject :=
  ("Content-Type", "application/json") ::
  match token with
  | Some t => if truthy (VString t) then [("Authorization", "Bearer " ++ t)] else []
  | None => []
  end.

(** [request(path, options)] *)
Definition request (path : string) (options : RequestInit) : M Response :=
  token ← getToken;
  let headers := mergeHeaders (init_headers options) (injected token) in
  api ← readM API;
  fetch (UrlString (api ++ path))
    (mkInit (init_method options) (Some (InitRecord headers)) (init_body options)
       (init_credentials options) (Some "no-store")).

(** [apiJson(path, options)] *)
Definition apiJson (path : string) (options : RequestInit) : M value :=
  res ← request path options;
  if negb (res_ok res)
  then (err ← liftM (fromResponse res); throwM (TApiError err))
  else liftM (Response_json res).1.

(** [apiText(path, options)] *)
Definition apiText (path : string) (options : RequestInit) : M string :=
  res ← request path options;
  if negb (res_ok res)
  then (err ← liftM (fromResponse res); throwM (TApiError err))
  else liftM (Response_text res).1.

(** [apiFetch(path, init)] *)
Definition apiFetch (path : string) (init : RequestInit) : M Response :=
  let headers := Headers_new (init_headers init) in
  token ← getToken;
  let headers :=
    match token with
    | Some t =>
        if truthy (VString t) && negb (Headers_has "authorization" headers)
        then Headers_set "authorization" ("Bearer " ++ t) headers
        else headers
    | None => headers
    end in
  api ← readM API;
  res ← fetch (UrlString (api ++ path))
          (mkInit (init_method init) (Some (InitHeaders headers)) (init_body init)
             (Some "omit") (init_cache init));
  if negb (res_ok res)
  then (err ← liftM (fromResponse res); throwM (TApiError err))
  else retM res.

(** * The route handlers *)

(** The response a handler returns. *)
Inductive BodyInit : Type :=
| FromText (s : string)
| FromStream (s : ReadableStream).

Record NextResponse : Type := mkNextResponse {
  out_status : Z;
  out_headers : Headers;
  out_body : option BodyInit
}.

Definition null_body_status (s : Z) : bool :=
  (s =? 101) || (s =? 103) || (s =? 204) || (s =? 205) || (s =? 304).

(** Initialize a response (Fetch standard): the status is checked, the
    headers are filled from [init], a body is refused with a null body
    status, and the type of the body becomes [Content-Type] when [init]
    names none. *)
Definition Response_initialize (body : option BodyInit) (body_type : option string)
    (st : Z) (headers : option HeadersInit) : completion NextResponse :=
  if (st <? 200) || (599 <? st) then Throw (RangeError msg_status_range)
  else
    let h := Headers_new headers in
    match body with
    | None => Return (mkNextResponse st h None)
    | Some b =>
        if null_body_status st then Throw (TypeError msg_null_body_status)
        else
          let h :=
            match body_type with
            | Some t => if Headers_has "content-type" h then h else Headers_append "Content-Type" t h
            | None => h
            end in
          Return (mkNextResponse st h (Some b))
    end.

(** [new NextResponse(stream, { status, headers })]: a disturbed stream
    cannot be taken as a body. *)
Definition NextResponse_new (body : option ReadableStream) (st : Z)
    (headers : option HeadersInit) : completion NextResponse :=
  match body with
  | None => Response_initialize None None st headers
  | Some s =>
      if disturbed s then Throw (TypeError msg_body_unusable)
      else Response_initialize (Some (FromStream s)) None st headers
  end.

(** [NextResponse.json(data, { status })] *)
Definition NextResponse_json (data : value) (st : Z) : completion NextResponse :=
  s ← JSON_stringify data;
  match s with
  | None => Throw (TypeError msg_not_serializable)
  | Some text => Response_initialize (Some (FromText text)) (Some "application/json") st None
  end.

(** The inbound [Request]: [req_search] is [new URL(request.url).search]. *)
Record Request : Type := mkRequest {
  req_search : string;
  req_headers : Headers
}.

Definition API_BASE (w : World) : string :=
  env_or "API_BASE_URL" (env_or "NEXT_PUBLIC_API_BASE_URL" "http://127.0.0.1:8000" w) w.

(** [error instanceof Error ? error.message : "Unknown error"] *)
Definition error_message (error : thrown) : string :=
  match error with
  | TError _ m => m
  | TApiError e => message e
  | TValue _ => "Unknown error"
  end.

(** [if (x) headers.set(name, x)] for a header read [x] *)
Definition set_if_truthy (name : string) (x : option string) (h : Headers) : Headers :=
  match x with
  | Some s => if truthy (VString s) then Headers_set name s h else h
  | None => h
  end.

(** The handler of [/api/admin/day-summary]. *)
Module DaySummary.

Definition GET (request : Request) : M NextResponse :=
  base ← readM API_BASE;
  let target := UrlResolve ("/api/admin/day-summary" ++ req_search request) base in
  let headers := Headers_new None in
  let cookie := Headers_get "cookie" (req_headers request) in
  let headers := set_if_truthy "cookie" cookie headers in
  let authorization := Headers_get "authorization" (req_headers request) in
  let headers := set_if_truthy "authorization" authorization headers in
  catchM
    (res ← fetch target
             (mkInit (Some "GET") (Some (InitHeaders headers)) None None (Some "no-store"));
     match Response_json res with
     | (Return data, _) => liftM (NextResponse_json data (res_status res))
     | (Throw _, res) =>
         text ← liftM (Response_text res).1;
         liftM (NextResponse_json
                  (VObject [("error", VString "Failed to parse response");
                            ("details", VString text)])
                  (res_status res))
     end)
    (fun error =>
       console_error "Error in day-summary API route:" error ;;
       liftM (NextResponse_json
                (VObject [("error", VString "Internal server error");
                          ("message", VString (error_message error))])
                500)).

End DaySummary.

(** The handler of [/api/admin/export-report]. *)
Module ExportReport.

Definition GET (request : Request) : M NextResponse :=
  base ← readM API_BASE;
  let target := UrlResolve ("/api/admin/export-report" ++ req_search request) base in
  let headers := Headers_new None in
  let cookie := Headers_get "cookie" (req_headers request) in
  let headers := set_if_truthy "cookie" cookie headers in
  let authorization := Headers_get "authorization" (req_headers request) in
  let headers := set_if_truthy "authorization" authorization headers in
  catchM
    (res ← fetch target
             (mkInit (Some "GET") (Some (InitHeaders headers)) None None (Some "no-store"));
     let outHeaders := Headers_new (Some (InitHeaders (res_headers res))) in
     let outHeaders := Headers_delete "content-encoding" outHeaders in
     liftM (NextResponse_new (res_body res) (res_status res)
              (Some (InitHeaders outHeaders))))
    (fun error =>
       console_error "Error in export-report API route:" error ;;
       liftM (NextResponse_json
                (VObject [("error", VString "Internal server error");
                          ("message", VString (error_message error))])
                500)).

End ExportReport.

(** * frontend/lib/api.ts: the other exports *)

Definition TABLE_KEY : string := "cm_table_id".

(** [getSelectedTableId()]; [None] is [null]. [Number] is the engine's
    conversion of a string to a number, a number being kept as its
    rendering as elsewhere. *)
Definition getSelectedTableId (Number : string -> string) : M (option string) :=
  readM (fun w =>
    match window w with
    | None => None
    | Some storage =>
        let v := storage !! TABLE_KEY in
        match v with
        | None => None
        | Some s =>
            if negb (truthy (VString s)) then None
            else
              let n := Number s in
              if is_finite n then Some n else None
        end
    end).

(** [setSelectedTableId(id)]; [String(id)] is the rendering of [id]. *)
Definition setSelectedTableId (id : string) : M unit := fun w =>
  match window w with
  | None => (Return tt, w)
  | Some storage =>
      (Return tt,
       mkWorld (Some (<[TABLE_KEY := id]> storage)) (env w) (network w) (sent w) (console w))
  end.

(** [getAccessToken()] *)
Definition getAccessToken : M (option string) := getToken.

(** A [Blob]: the content of the body it was read from. *)
Record Blob : Type := mkBlob { blob_content : content }.

(** [res.blob()] *)
Definition Response_blob (res : Response) : completion Blob * Response :=
  match consume_body res with
  | (Return (CError e), res') => (Throw e, res')
  | (Return c, res') => (Return (mkBlob c), res')
  | (Throw e, res') => (Throw e, res')
  end.

(** [apiBlob(path, options)] *)
Definition apiBlob (path : string) (options : RequestInit) : M Blob :=
  res ← request path options;
  if negb (res_ok res)
  then (err ← liftM (fromResponse res); throwM (TApiError err))
  else liftM (Response_blob res).1.

(** The longest prefix of [s] without a double quote, and what follows. *)
Fixpoint span_unquoted (s : string) : string * string :=
  match s with
  | EmptyString => (EmptyString, EmptyString)
  | String c rest =>
      if Ascii.eqb c dquote then (EmptyString, s)
      else let '(name, after) := span_unquoted rest in (String c name, after)
  end.

(** [s] begins with [pattern], letters compared without regard to case;
    [pattern] is in lower case. *)
Fixpoint iprefix (pattern s : string) : bool :=
  match pattern, s with
  | EmptyString, _ => true
  | String p pattern', String c s' => Ascii.eqb (lower_char c) p && iprefix pattern' s'
  | String _ _, EmptyString => false
  end.

Fixpoint drop_chars (n : nat) (s : string) : string :=
  match n, s with
  | O, _ => s
  | S n', String _ s' => drop_chars n' s'
  | S _, EmptyString => EmptyString
  end.

(** The text that the pattern of [apiDownload] begins with: [filename=]
    and a double quote. *)
Definition filename_key : string := "filename=" ++ String dquote EmptyString.

(** A match of the pattern of [apiDownload] that starts at the head of
    [s]: the key in any case, then as many characters other than a double
    quote as there are, at least one, then a double quote. The result is
    the group, the characters between the quotes. *)
Definition match_filename_here (s : string) : option string :=
  if iprefix filename_key s then
    let '(name, after) := span_unquoted (drop_chars 10 s) in
    match name, after with
    | String _ _, String _ _ => Some name
    | _, _ => None
    end
  else None.

(** [exec] of that pattern on [s]: the group of the leftmost match. *)
Fixpoint exec_filename (s : string) : option string :=
  match match_filename_here s with
  | Some name => Some name
  | None =>
      match s with
      | EmptyString => None
      | String _ rest => exec_filename rest
      end
  end.

(** What [apiDownload] does to the page, in order: [URL.createObjectURL],
    the anchor with its [href] and [download] appended to the body,
    [a.click()], [a.remove()], [URL.revokeObjectURL]. An object URL is
    known by the blob it stands for. *)
Inductive dom_event : Type :=
| CreateObjectURL (blob : Blob)
| AppendAnchor (href : Blob) (download : string)
| ClickAnchor
| RemoveAnchor
| RevokeObjectURL (url : Blob).

(** [apiDownload(path, fallbackFilename)]; the result is what was done to
    the page. An absent [fallbackFilename] is [None]. Where there is no
    [window] there is no [document], and reading it throws. *)
Definition apiDownload (path : string) (fallbackFilename : option string)
    : M (list dom_event) :=
  res ← request path (mkInit (Some "GET") None None None None);
  if negb (res_ok res)
  then (err ← liftM (fromResponse res); throwM (TApiError err))
  else
    blob ← liftM (Response_blob res).1;
    let disposition := default "" (Headers_get "content-disposition" (res_headers res)) in
    let filename :=
      match fallbackFilename with
      | Some f => if truthy (VString f) then f else "export.bin"
      | None => "export.bin"
      end in
    let m := exec_filename disposition in
    let filename :=
      match m with
      | Some m1 => if truthy (VString m1) then m1 else filename
      | None => filename
      end in
    let url := blob in
    page ← readM window;
    match page with
    | None => throwM (TError "ReferenceError" "document is not defined")
    | Some _ =>
        retM [CreateObjectURL blob; AppendAnchor url filename; ClickAnchor; RemoveAnchor;
              RevokeObjectURL url]
    end.

(** ** More vocabulary *)

(** The value of the property [k] of a record. *)
Fixpoint record_get (k : string) (o : list (string * string)) : option string :=
  match o with
  | [] => None
  | (k', v) :: rest => if String.eqb k' k then Some v else record_get k rest
  end.

(** The value that the last pair named [k] gives it. *)
Fixpoint last_value (k : string) (pairs : list (string * string)) : option string :=
  match pairs with
  | [] => None
  | (k', v) :: rest =>
      match last_value k rest with
      | Some x => Some x
      | None => if String.eqb k' k then Some v else None
      end
  end.

(** What [mergeHeaders] reads the caller's headers as: the pairs of an
    array or a record as they are, the iteration of a [Headers] object. *)
Definition caller_entries (a : option HeadersInit) : list (string * string) :=
  match a with
  | None => []
  | Some (InitArray pairs) => pairs
  | Some (InitHeaders h) => Headers_entries h
  | Some (InitRecord o) => o
  end.

(** [s] holds no double quote. *)
Definition unquoted (s : string) : bool :=
  match span_unquoted s with
  | (_, EmptyString) => true
  | (_, String _ _) => false
  end.

(** What [apiDownload] does to the page when it saves [blob] as [name]. *)
Definition saved_as (blob : Blob) (name : string) : list dom_event :=
  [CreateObjectURL blob; AppendAnchor blob name; ClickAnchor; RemoveAnchor;
   RevokeObjectURL blob].

(** Data that [JSON.parse] can return: a numeral too large for a number
    parses to an infinity, and nothing parses to [NaN]. *)
Fixpoint is_json (v : value) : bool :=
  match v with
  | VNull | VBool _ | VString _ => true
  | VNumber r => negb (String.eqb r "NaN")
  | VArray elems => forallb is_json elems
  | VObject props => forallb (fun p => is_json p.2) props
  | VUndefined | VBigInt _ | VCycle => false
  end.

(** * Vocabulary of the statements *)

(** The name and value pairs that a caller hands over as [headers]. *)
Definition init_pairs (init : option HeadersInit) : list (string * string) :=
  match init with
  | None => []
  | Some (InitArray pairs) => pairs
  | Some (InitHeaders h) => h
  | Some (InitRecord o) => o
  end.

(** The caller supplies a header called [name], in whatever case. *)
Definition supplies (name : string) (init : option HeadersInit) : Prop :=
  exists p, p ∈ init_pairs init /\ lower p.1 = lower name.

(** [Authorization] value for a stored token: none for [null] and for
    the empty string. *)
Definition bearer (token : option string) : option string :=
  match token with
  | Some t => if String.eqb t "" then None else Some ("Bearer " ++ t)
  | None => None
  end.

(** A header read that is neither [null] nor empty. *)
Definition nonempty (x : option string) : option string :=
  match x with
  | Some s => if String.eqb s "" then None else Some s
  | None => None
  end.

(** What [getToken] returns in [w]. *)
Definition stored_token (w : World) : option string :=
  match window w with
  | None => None
  | Some storage => storage !! TOKEN_KEY
  end.

(** The response declares a JSON body, as [fromResponse] tests it. *)
Definition json_typed (res : Response) : bool :=
  includes "application/json" (default "" (Headers_get "content-type" (res_headers res))).

(** A response as [fetch] resolves with it: a body that has not been
    read, and no body at all with a null body status. *)
Definition delivered (res : Response) : Prop :=
  (null_body_status (res_status res) = true -> res_body res = None) /\
  (forall s, res_body res = Some s -> disturbed s = false).

(** Such a response with a status that a [Response] can be built with,
    200 to 599. *)
Definition fetched (res : Response) : Prop :=
  200 <= res_status res <= 599 /\
  (null_body_status (res_status res) = true -> res_body res = None) /\
  (forall s, res_body res = Some s -> disturbed s = false).

(** The world with no window, no environment, empty logs and a network
    that answers every call with [r]. *)
Definition answering (r : completion Response) : World :=
  mkWorld None ∅ (fun _ => r) [] [].

(** The same in a browser whose storage holds [storage]. *)
Definition browser (storage : gmap string string) (r : completion Response) : World :=
  mkWorld (Some storage) ∅ (fun _ => r) [] [].

(** An unread body stream holding the JSON text of [v], and one holding
    a text that is not JSON. *)
Definition json_stream (v : value) : ReadableStream :=
  mkStream (CJson (match JSON_stringify v with Return (Some s) => s | _ => "" end) v) false.

Definition text_stream (text : string) : ReadableStream :=
  mkStream (CText text) false.

(** The message of an error response with a JSON body, in the words of
    the specification: the [detail] field when the body has one, else the
    [message] field when it has one, else the default text. *)
Definition stated_message (json : value) (dflt : string) : value :=
  match json with
  | VObject props =>
      match lookup_prop "detail" props with
      | Some d => d
      | None =>
          match lookup_prop "message" props with
          | Some m => m
          | None => VString dflt
          end
      end
  | _ => VString dflt
  end.

(** The classification of a failure value, in the words of the
    specification: the message of an error, a string itself, the
    [message] field of an object when that field is a string, otherwise
    the JSON serialization, and the fixed text when that fails. *)
Definition stated_classification (error : thrown) : value :=
  match error with
  | TApiError e => VString (message e)
  | TError _ m => VString m
  | TValue (VString s) => VString s
  | TValue v =>
      match (match v with
             | VObject props => lookup_prop "message" props
             | _ => None
             end) with
      | Some (VString m) => VString m
      | _ =>
          match JSON_stringify v with
          | Return (Some s) => VString s
          | Return None => VUndefined
          | Throw _ => VString fallback_text
          end
      end
  end.

(** The world after the [console.error] of [withErrorHandler]. *)
Definition logged (error : thrown) (w : World) : World :=
  (console_error "Error in wrapped function:" error w).2.

(** The payloads of the route handlers, and the JSON response that
    carries the text [body] at status [st]. *)
Definition payload_internal (error : thrown) : value :=
  VObject [("error", VString "Internal server error");
           ("message", VString (error_message error))].

Definition payload_unparsed (text : string) : value :=
  VObject [("error", VString "Failed to parse response");
           ("details", VString text)].

Definition json_response (st : Z) (body : string) : NextResponse :=
  mkNextResponse st [("Content-Type", "application/json")] (Some (FromText body)).

(** What a handler forwards under [name]: the inbound [cookie] and
    [authorization] when they are not empty, nothing else. *)
Definition forwarded (name : string) (request : Request) : option string :=
  if decide (lower name = "cookie" \/ lower name = "authorization")
  then nonempty (Headers_get name (req_headers request))
  else None.

(** * Properties of header lists *)

Section header_lists.
Local Open Scope list_scope.
Implicit Types (h : Headers) (n name : string).

Lemma lower_char_idem c : lower_char (lower_char c) = lower_char c.
Proof. by destruct c as [[] [] [] [] [] [] [] []]. Qed.

Lemma lower_idem n : lower (lower n) = lower n.
Proof. induction n as [|c n IH]; simpl; [done|]. by rewrite lower_char_idem, IH. Qed.

Lemma named_app name h1 h2 :
  named name (h1 ++ h2) = (named name h1 ++ named name h2)%list.
Proof. apply filter_app. Qed.

Lemma values_of_app name h1 h2 :
  values_of name (h1 ++ h2) = (values_of name h1 ++ values_of name h2)%list.
Proof. unfold values_of. by rewrite named_app, fmap_app. Qed.

Lemma values_of_lower name h : values_of (lower name) h = values_of name h.
Proof. unfold values_of, named. by rewrite lower_idem. Qed.

Lemma values_of_nil_iff name h :
  values_of name h = [] <-> forall p, p ∈ h -> lower p.1 <> lower name.
Proof.
  unfold values_of, named. induction h as [|q h IH].
  - split; [|done]. intros _ p Hp. by apply elem_of_nil in Hp.
  - rewrite filter_cons. destruct (decide _) as [Hn|Hn].
    + split; [done|]. intros H. exfalso. by apply (H q); [left|].
    + rewrite IH. split.
      * intros H p [->|Hp]%elem_of_cons; auto.
      * intros H p Hp. apply H. by right.
Qed.

Lemma values_of_single name k v :
  values_of name [(k, v)] = if decide (lower k = lower name) then [v] else [].
Proof. unfold values_of, named. rewrite filter_cons. simpl. by destruct (decide _). Qed.

Lemma values_of_append name n v h :
  values_of name (Headers_append n v h)
  = (values_of name h ++ if decide (lower n = lower name) then [v] else [])%list.
Proof.
  unfold Headers_append. rewrite values_of_app, values_of_single.
  destruct (named n h) as [|p rest] eqn:E; [done|].
  assert (Hp : p ∈ named n h) by (rewrite E; left).
  apply list_elem_of_filter in Hp as [Hp _]. simpl in *. by rewrite Hp.
Qed.

Lemma values_of_fill name pairs h :
  values_of name (Headers_fill pairs h)
  = (values_of name h ++ values_of name pairs)%list.
Proof.
  unfold Headers_fill. revert h.
  induction pairs as [|[k v] pairs IH]; intros h; simpl.
  - by rewrite app_nil_r.
  - rewrite IH, values_of_append. change ((k, v) :: pairs) with ([(k, v)] ++ pairs)%list.
    by rewrite (values_of_app name [(k, v)]), values_of_single, <- app_assoc.
Qed.

Lemma values_of_delete name n h :
  values_of name (Headers_delete n h)
  = if decide (lower name = lower n) then [] else values_of name h.
Proof.
  unfold values_of, named, Headers_delete. rewrite list_filter_filter.
  destruct (decide _) as [E|E].
  - rewrite (list_filter_iff _ (fun _ => False)); [|intros p; rewrite E; tauto].
    by induction h as [|p h IH]; [|rewrite filter_cons_False by tauto].
  - f_equal. apply list_filter_iff. intros p. split; [tauto|].
    intros Hp. split; [done|congruence].
Qed.

Lemma values_of_set_first name n v h :
  values_of n h <> [] ->
  values_of name (set_first n v h)
  = if decide (lower name = lower n) then [v] else values_of name h.
Proof.
  induction h as [|[k x] h IH]; intros Hne; [done|]. simpl.
  change ((k, x) :: h) with ([(k, x)] ++ h)%list in *.
  destruct (String.eqb_spec (lower k) (lower n)) as [E|E].
  - change ((k, v) :: Headers_delete n h) with ([(k, v)] ++ Headers_delete n h)%list.
    rewrite !values_of_app, !values_of_single, values_of_delete.
    destruct (decide (lower name = lower n)) as [E'|E'].
    + rewrite decide_True by congruence. done.
    + rewrite !decide_False by congruence. done.
  - change ((k, x) :: set_first n v h) with ([(k, x)] ++ set_first n v h)%list.
    rewrite values_of_app, values_of_single, decide_False in Hne by done.
    rewrite !values_of_app, !values_of_single, IH by done.
    destruct (decide (lower name = lower n)) as [E'|E']; [|done].
    rewrite decide_False by congruence. done.
Qed.

Lemma values_of_set name n v h :
  values_of name (Headers_set n v h)
  = if decide (lower name = lower n) then [v] else values_of name h.
Proof.
  unfold Headers_set, Headers_has.
  destruct (values_of n h) as [|x xs] eqn:E.
  - rewrite values_of_append. destruct (decide (lower name = lower n)) as [E'|E'].
    + rewrite decide_True by done.
      assert (values_of name h = []) as ->; [|done].
      apply values_of_nil_iff. intros p Hp. rewrite E'.
      by apply (proj1 (values_of_nil_iff n h) E).
    + rewrite decide_False by congruence. by rewrite app_nil_r.
  - apply values_of_set_first. by rewrite E.
Qed.

Lemma Headers_get_set name n v h :
  Headers_get name (Headers_set n v h)
  = if decide (lower name = lower n) then Some v else Headers_get name h.
Proof. unfold Headers_get. rewrite values_of_set. by destruct (decide _). Qed.

Lemma Headers_get_delete name n h :
  Headers_get name (Headers_delete n h)
  = if decide (lower name = lower n) then None else Headers_get name h.
Proof. unfold Headers_get. rewrite values_of_delete. by destruct (decide _). Qed.

Lemma Headers_has_get name h :
  Headers_has name h = bool_decide (is_Some (Headers_get name h)).
Proof.
  unfold Headers_has, Headers_get. destruct (values_of name h).
  - rewrite bool_decide_eq_false_2; [done|]. by intros [? ?].
  - by rewrite bool_decide_eq_true_2.
Qed.

(** ** Iteration *)

Lemma values_of_flat_map {A} name (f : A -> Headers) (l : list A) :
  values_of name (flat_map f l) = flat_map (fun a => values_of name (f a)) l.
Proof. induction l as [|a l IH]; simpl; [done|]. by rewrite values_of_app, IH. Qed.

Lemma flat_map_single {A B} `{EqDecision A} (g : A -> list B) (x : A) (l : list A) :
  NoDup l -> (forall a, a ∈ l -> a <> x -> g a = []) ->
  flat_map g l = if decide (x ∈ l) then g x else [].
Proof.
  intros Hnd Hg. induction Hnd as [|a l Ha Hnd IH].
  - simpl. destruct (decide (x ∈ [])) as [H|H]; [by apply elem_of_nil in H|done].
  - cbn [flat_map]. rewrite IH by (intros b Hb; apply Hg; by right).
    destruct (decide (a = x)) as [->|Hax].
    + destruct (decide (x ∈ l)) as [|_]; [done|].
      destruct (decide (x ∈ x :: l)) as [_|H]; [by rewrite app_nil_r|].
      exfalso. apply H. left.
    + rewrite (Hg a) by (done || left). simpl.
      destruct (decide (x ∈ l)) as [Hx|Hx], (decide (x ∈ a :: l)) as [Hx'|Hx']; try done.
      * exfalso. apply Hx'. by right.
      * apply elem_of_cons in Hx' as [->|]; done.
Qed.

Lemma sorted_names_NoDup h : NoDup (sorted_names h).
Proof.
  unfold sorted_names. rewrite merge_sort_Permutation. apply NoDup_remove_dups.
Qed.

Lemma elem_of_sorted_names n h :
  n ∈ sorted_names h <-> exists p, p ∈ h /\ n = lower p.1.
Proof.
  unfold sorted_names. rewrite merge_sort_Permutation, elem_of_remove_dups.
  rewrite list_elem_of_fmap. split.
  - intros (k & -> & Hk). apply list_elem_of_fmap in Hk as (p & -> & Hp). eauto.
  - intros (p & Hp & ->). exists p.1. split; [done|]. by apply list_elem_of_fmap_2.
Qed.

Lemma values_of_tagged name n (vs : list string) :
  values_of name (map (fun v => (n, v)) vs)
  = if decide (lower n = lower name) then vs else [].
Proof.
  induction vs as [|v vs IH]; simpl; [by destruct (decide _)|].
  change ((n, v) :: map (fun v => (n, v)) vs)
    with ([(n, v)] ++ map (fun v => (n, v)) vs)%list.
  rewrite values_of_app, values_of_single, IH. by destruct (decide _).
Qed.

(** Reading a name from the iteration of a list: the values as they are
    for [set-cookie], the joined value elsewhere. *)
Lemma values_of_entries name h :
  values_of name (Headers_entries h)
  = if decide (lower name = "set-cookie") then values_of name h
    else match values_of name h with
         | [] => []
         | vs => [String.concat ", " vs]
         end.
Proof.
  unfold Headers_entries. rewrite values_of_flat_map.
  rewrite (flat_map_single _ (lower name)).
  - destruct (decide (lower name ∈ sorted_names h)) as [Hin|Hin].
    + apply elem_of_sorted_names in Hin as (p & Hp & Hn).
      assert (values_of name h <> []) as Hne.
      { intros E. by apply (proj1 (values_of_nil_iff name h) E p). }
      rewrite (values_of_lower name h).
      destruct (String.eqb_spec (lower name) "set-cookie") as [E|E].
      * rewrite decide_True by done. rewrite values_of_tagged.
        by rewrite decide_True by (by rewrite lower_idem).
      * rewrite decide_False by done. rewrite values_of_single.
        rewrite decide_True by (by rewrite lower_idem).
        by destruct (values_of name h).
    + assert (values_of name h = []) as ->; [|by destruct (decide _)].
      apply values_of_nil_iff. intros p Hp E. apply Hin.
      apply elem_of_sorted_names. eauto.
  - apply sorted_names_NoDup.
  - intros a Hin Ha.
    apply elem_of_sorted_names in Hin as (p & _ & ->).
    assert (lower (lower p.1) <> lower name) as E by (by rewrite lower_idem).
    destruct (String.eqb (lower p.1) "set-cookie").
    + rewrite values_of_tagged. by rewrite decide_False.
    + rewrite values_of_single. by rewrite decide_False.
Qed.

Lemma Headers_get_entries name h :
  Headers_get name (Headers_entries h) = Headers_get name h.
Proof.
  unfold Headers_get. rewrite values_of_entries.
  destruct (decide _); [done|]. by destruct (values_of name h).
Qed.

Lemma Headers_get_fill name pairs : 
  Headers_get name (Headers_fill pairs []) = Headers_get name pairs.
Proof. unfold Headers_get. by rewrite values_of_fill. Qed.

(** Copying a [Headers] object keeps every read. *)
Lemma Headers_get_copy name h :
  Headers_get name (Headers_new (Some (InitHeaders h))) = Headers_get name h.
Proof. simpl. by rewrite Headers_get_fill, Headers_get_entries. Qed.

End header_lists.

(** * Properties of string records *)

Section records.
Local Open Scope list_scope.
Implicit Types (o : list (string * string)) (k v : string).

Lemma elem_of_update_or_add p k v o :
  p ∈ update_or_add k v o -> p ∈ o \/ p = (k, v).
Proof.
  induction o as [|[k' x] o IH]; simpl.
  - intros Hp%list_elem_of_singleton. by right.
  - destruct (String.eqb_spec k' k) as [->|Hk].
    + intros [->|Hp]%elem_of_cons; [by right|left; by right].
    + intros [->|Hp]%elem_of_cons; [left; left|].
      destruct (IH Hp) as [?|?]; [left; by right|by right].
Qed.

Lemma elem_of_obj_set p k v o : p ∈ obj_set k v o -> p ∈ o \/ p = (k, v).
Proof.
  unfold obj_set. destruct (String.eqb k "__proto__"); [by left|].
  apply elem_of_update_or_add.
Qed.

Lemma elem_of_Object_assign p target source :
  p ∈ Object_assign target source -> p ∈ target \/ p ∈ source.
Proof.
  unfold Object_assign. revert target.
  induction source as [|[k v] source IH]; intros target; simpl; [by left|].
  intros [Hp|Hp]%IH.
  - apply elem_of_obj_set in Hp as [Hp | ->]; [by left|right; left].
  - right. by right.
Qed.

(** A name that is not yet a key is added at the end. *)
Lemma update_or_add_fresh k v o :
  (forall p, p ∈ o -> p.1 <> k) -> update_or_add k v o = o ++ [(k, v)].
Proof.
  induction o as [|[k' x] o IH]; intros H; simpl; [done|].
  destruct (String.eqb_spec k' k) as [E|E].
  - exfalso. by apply (H (k', x)); [left|].
  - rewrite IH; [done|]. intros p Hp. apply H. by right.
Qed.

Lemma elem_of_entries p h :
  p ∈ Headers_entries h -> exists q, q ∈ h /\ p.1 = lower q.1.
Proof.
  unfold Headers_entries. intros Hp%list_elem_of_In.
  apply in_flat_map in Hp as (n & Hn%list_elem_of_In & Hp%list_elem_of_In).
  apply elem_of_sorted_names in Hn as (q & Hq & ->). exists q. split; [done|].
  destruct (String.eqb (lower q.1) "set-cookie").
  - apply list_elem_of_fmap in Hp as (x & -> & _). done.
  - by apply list_elem_of_singleton in Hp as ->.
Qed.

(** The record that [mergeHeaders] builds from the caller's headers names
    nothing that the caller did not name, up to case. *)
Lemma mergeHeaders_caller_names p a :
  p ∈ mergeHeaders a [] -> exists q, q ∈ init_pairs a /\ lower p.1 = lower q.1.
Proof.
  unfold mergeHeaders. simpl. destruct a as [[pairs|h|o]|]; simpl.
  - intros [Hp|Hp]%(elem_of_Object_assign p [] pairs); [by apply elem_of_nil in Hp|eauto].
  - intros [Hp|Hp]%(elem_of_Object_assign p [] (Headers_entries h));
      [by apply elem_of_nil in Hp|].
    apply elem_of_entries in Hp as (q & Hq & ->). exists q. by rewrite lower_idem.
  - intros [Hp|Hp]%elem_of_Object_assign; [by apply elem_of_nil in Hp|eauto].
  - intros Hp. by apply elem_of_nil in Hp.
Qed.

Lemma mergeHeaders_split a b : mergeHeaders a b = Object_assign (mergeHeaders a []) b.
Proof. done. Qed.

End records.

(** * frontend/lib/api.ts: the outgoing request *)

Section client.
Local Open Scope list_scope.

Lemma getToken_run w : getToken w = (Return (stored_token w), w).
Proof. done. Qed.

(** One run of [request]: the call and the answer of the network. *)
Lemma request_run path options w :
  let call :=
    mkCall (UrlString (API w ++ path)%string)
      (mkInit (init_method options)
         (Some (InitRecord (mergeHeaders (init_headers options) (injected (stored_token w)))))
         (init_body options) (init_credentials options) (Some "no-store")) in
  request path options w
  = (network w call,
     mkWorld (window w) (env w) (network w) (sent w ++ [call]) (console w)).
Proof. done. Qed.

Lemma truthy_string s : truthy (VString s) = negb (String.eqb s "").
Proof. done. Qed.

Lemma caller_names_not a name p :
  ~ supplies name a -> p ∈ mergeHeaders a [] -> lower p.1 <> lower name.
Proof.
  intros Hno Hp E. apply mergeHeaders_caller_names in Hp as (q & Hq & Hl).
  apply Hno. exists q. split; [done|congruence].
Qed.

Lemma values_of_nil_obj_set name k v o :
  lower k <> lower name -> values_of name o = [] -> values_of name (obj_set k v o) = [].
Proof.
  intros Hk Ho. apply values_of_nil_iff. intros p [Hp | ->]%elem_of_obj_set; [|done].
  by apply (proj1 (values_of_nil_iff name o) Ho).
Qed.

Lemma values_of_obj_set_fresh name v o :
  name <> "__proto__" -> values_of name o = [] ->
  values_of name (obj_set name v o) = [v].
Proof.
  intros Hn Ho. unfold obj_set.
  destruct (String.eqb_spec name "__proto__") as [|_]; [done|].
  rewrite update_or_add_fresh.
  - rewrite values_of_app, Ho, values_of_single. by rewrite decide_True.
  - intros p Hp E. apply (proj1 (values_of_nil_iff name o) Ho p Hp). by rewrite E.
Qed.

End client.

(** C8: with a stored token (here any non-empty [t], ["abc"] in the
    claim) and no [Authorization] header from the caller, the request that
    [request] hands to [fetch] carries [Authorization: Bearer t]; with no
    stored token the record of injected headers holds [Content-Type] only,
    so that no [Authorization] header is added to those of the caller. *)
Theorem request_injects_bearer (path : string) (options : RequestInit) (w : World) :
  exists call : FetchCall,
    sent (request path options w).2 = (sent w ++ [call])%list /\
    (forall t : string,
        stored_token w = Some t -> t <> "" ->
        ~ supplies "Authorization" (init_headers options) ->
        Headers_get "Authorization" (call_headers call) = Some ("Bearer " ++ t)) /\
    (stored_token w = None ->
        init_headers (call_init call)
        = Some (InitRecord (mergeHeaders (init_headers options)
                              [("Content-Type", "application/json")])) /\
        (~ supplies "Authorization" (init_headers options) ->
         Headers_get "Authorization" (call_headers call) = None)).
Proof.
  rewrite request_run. eexists. split; [reflexivity|]. unfold call_headers. simpl.
  set (a := init_headers options).
  assert (Hbase : ~ supplies "Authorization" a ->
            values_of "Authorization"
              (obj_set "Content-Type" "application/json" (mergeHeaders a [])) = []).
  { intros Hno. apply values_of_nil_obj_set; [done|].
    apply values_of_nil_iff. intros p Hp. by apply (caller_names_not a). }
  split.
  - intros t -> Ht Hno. unfold injected. rewrite truthy_string.
    destruct (String.eqb_spec t "") as [|_]; [done|]. simpl negb. cbv iota.
    rewrite mergeHeaders_split. unfold Object_assign. simpl fold_left.
    unfold Headers_get.
    rewrite (values_of_fill "Authorization" _ []). simpl app.
    rewrite values_of_obj_set_fresh by auto. done.
  - intros ->. split; [done|]. intros Hno.
    unfold injected. rewrite mergeHeaders_split. unfold Object_assign. simpl fold_left.
    unfold Headers_get. rewrite (values_of_fill "Authorization" _ []). simpl app.
    by rewrite Hbase.
Qed.

Lemma request_injects_bearer_witness :
  exists call : FetchCall,
    sent (request "/api/tables" no_init (browser {[TOKEN_KEY := "abc"]} (Throw (TValue VNull)))).2
    = [call] /\
    Headers_get "Authorization" (call_headers call) = Some "Bearer abc".
Proof.
  destruct (request_injects_bearer "/api/tables" no_init
              (browser {[TOKEN_KEY := "abc"]} (Throw (TValue VNull))))
    as (call & Hsent & Hbearer & _).
  exists call. split; [exact Hsent|].
  apply (Hbearer "abc"); [reflexivity|discriminate|].
  intros (p & Hp & _). simpl in Hp. by apply elem_of_nil in Hp.
Defined.

(** C3, at a caller that passes a [Headers] object holding
    [Content-Type: text/plain]: [mergeHeaders] reads the name back in
    lower case, the injected [Content-Type] becomes a second property of
    the record, and the outgoing request keeps the caller's value in front
    of the injected one. *)
Theorem request_keeps_caller_content_type :
  let options :=
    mkInit (Some "POST") (Some (InitHeaders [("Content-Type", "text/plain")]))
      (Some "x") None None in
  exists call : FetchCall,
    sent (request "/api/notes" options (answering (Throw (TValue VNull)))).2 = [call] /\
    init_headers (call_init call)
    = Some (InitRecord [("content-type", "text/plain");
                        ("Content-Type", "application/json")]) /\
    Headers_get "Content-Type" (call_headers call) = Some "text/plain, application/json".
Proof. eexists. split; [reflexivity|]. split; reflexivity. Qed.

(** The same with a record whose key is written in lower case, and for
    [Authorization] with a stored token. *)
Lemma request_keeps_caller_authorization :
  let options :=
    mkInit None (Some (InitRecord [("authorization", "Basic dXNlcg==")])) None None None in
  exists call : FetchCall,
    sent (request "/api/notes" options
            (browser {[TOKEN_KEY := "abc"]} (Throw (TValue VNull)))).2 = [call] /\
    Headers_get "Authorization" (call_headers call) = Some "Basic dXNlcg==, Bearer abc".
Proof. eexists. split; reflexivity. Qed.


Section apiFetch_facts.
Local Open Scope list_scope.

Lemma Headers_get_lower n1 n2 (h : Headers) :
  lower n1 = lower n2 -> Headers_get n1 h = Headers_get n2 h.
Proof. intros E. unfold Headers_get, values_of, named. by rewrite E. Qed.


(** One run of [apiFetch]. *)
Lemma apiFetch_run path init w :
  let headers0 := Headers_new (init_headers init) in
  let headers :=
    match stored_token w with
    | Some t =>
        if truthy (VString t) && negb (Headers_has "authorization" headers0)
        then Headers_set "authorization" ("Bearer " ++ t)%string headers0
        else headers0
    | None => headers0
    end in
  let call :=
    mkCall (UrlString (API w ++ path)%string)
      (mkInit (init_method init) (Some (InitHeaders headers)) (init_body init)
         (Some "omit") (init_cache init)) in
  let w' := mkWorld (window w) (env w) (network w) (sent w ++ [call]) (console w) in
  apiFetch path init w
  = (match network w call with
     | Return res =>
         if negb (res_ok res)
         then match fromResponse res with
              | Return err => Throw (TApiError err)
              | Throw e => Throw e
              end
         else Return res
     | Throw e => Throw e
     end, w').
Proof.
  intros. unfold apiFetch.
  change (apiFetch path init w) with (apiFetch path init w).
  unfold mbind, M_bind, bindM. rewrite getToken_run. cbn [readM].
  fold headers0. fold headers. unfold fetch. fold call. fold w'.
  destruct (network w call) as [res|e]; [|done].
  destruct (res_ok res); simpl; [done|].
  unfold liftM, throwM. by destruct (fromResponse res).
Qed.

End apiFetch_facts.

(** C7, at a response that is not ok, declared as JSON, whose [detail]
    is an object with a property called [toString]: whatever the path,
    the options and the stored token, [apiFetch] does not throw an
    [ApiError]; it throws the [TypeError] that [fromResponse] raises
    while it builds one. *)
Theorem apiFetch_raises_on_toString_detail
    (path : string) (init : RequestInit) (storage : option (gmap string string)) :
  let res :=
    mkResponse 422 "Unprocessable Entity" [("content-type", "application/json")]
      (Some (json_stream
               (VObject [("detail", VObject [("toString", VString "field required")])]))) in
  let w := mkWorld storage ∅ (fun _ => Return res) [] [] in
  res_ok res = false /\
  (apiFetch path init w).1 = Throw (TypeError msg_to_primitive) /\
  forall err : ApiError, (apiFetch path init w).1 <> Throw (TApiError err).
Proof.
  intros res w. rewrite apiFetch_run. cbv zeta. cbn [fst network w].
  assert (Hres : fromResponse res = Throw (TypeError msg_to_primitive)) by reflexivity.
  change (res_ok res) with false. cbn [negb]. rewrite Hres.
  split; [reflexivity|]. split; [reflexivity|]. discriminate.
Qed.

(** * frontend/lib/errors.ts *)

Section errors.

Lemma truthy_nonempty s : s <> "" -> truthy (VString s) = true.
Proof. intros Hs. simpl. by destruct (String.eqb_spec s ""). Qed.

(** A body that cannot be read, or that is declared as JSON and does not
    parse, gives the default message and no details. *)
Lemma fromResponse_unreadable_body (res : Response) (e : thrown) :
  (if json_typed res then (Response_json res).1 = Throw e
   else (Response_text res).1 = Throw e) ->
  fromResponse res = Return (mkApiError (default_message res) (res_status res) VUndefined).
Proof.
  unfold fromResponse, json_typed. destruct (includes _ _).
  - destruct (Response_json res) as [[json|e'] res']; [done|]. by intros _.
  - destruct (Response_text res) as [[text|e'] res']; [done|]. by intros _.
Qed.

Lemma serialize_undefined v : serialize v = Return None -> v = VUndefined.
Proof.
  destruct v as [| |b|r|z|s|elems|props|]; simpl; try done.
  - match goal with |- context [match ?m with Return _ => _ | Throw _ => _ end] =>
      by destruct m end.
  - match goal with |- context [match ?m with Return _ => _ | Throw _ => _ end] =>
      by destruct m end.
Qed.

Lemma serialize_cases v :
  (exists t, JSON_stringify v = Return (Some t)) \/
  (exists e, JSON_stringify v = Throw e) \/ v = VUndefined.
Proof.
  unfold JSON_stringify. destruct (serialize v) as [[t|]|e] eqn:E; eauto.
  right. right. by apply serialize_undefined.
Qed.

(** The test [error && typeof error === "object" && "message" in error]
    holds of the objects that have the property. *)
Lemma object_with_message v :
  truthy v && bool_decide (typeof v = TyObject) && has_property "message" v
  = has_property "message" v.
Proof. destruct v; simpl; rewrite ?andb_false_r; reflexivity. Qed.

Lemma handleApiError_value v :
  handleApiError (TValue v)
  = if is_string v then Return v
    else if has_property "message" v then
      Return (if is_string (get_member "message" v) then get_member "message" v
              else VString fallback_text)
    else
      try_catch
        (s ← JSON_stringify v;
         Return (match s with Some t => VString t | None => VUndefined end))
        (fun _ => Return (VString fallback_text)).
Proof. unfold handleApiError. by rewrite object_with_message. Qed.

End errors.

(** C1, as stated, fails on a body whose [detail] is the empty string:
    the message is taken from [message]. *)
Lemma fromResponse_skips_empty_detail :
  let body := VObject [("detail", VString ""); ("message", VString "Table is closed")] in
  let res :=
    mkResponse 409 "Conflict" [("content-type", "application/json")]
      (Some (json_stream body)) in
  exists err : ApiError,
    fromResponse res = Return err /\
    message err = "Table is closed" /\
    VString (message err) <> stated_message body (default_message res).
Proof. eexists. split; [reflexivity|]. split; [reflexivity|discriminate]. Qed.

(** C1, amended: for a response declared as JSON whose body parses, the
    message is [detail] when that is a non-empty string; it is [message]
    when [detail] is absent or falsy and [message] is a non-empty string;
    it is [API {status}: {statusText}] when both are absent or falsy. For
    another content type the message is the body text when not empty and
    the default text otherwise. The parsed body, or the text, is kept as
    [details]. *)
Theorem fromResponse_message (res : Response) :
  (json_typed res = true ->
   forall json : value, (Response_json res).1 = Return json ->
     (forall d : string,
         optional_member "detail" json = VString d -> d <> "" ->
         fromResponse res = Return (mkApiError d (res_status res) json)) /\
     (forall m : string,
         truthy (optional_member "detail" json) = false ->
         optional_member "message" json = VString m -> m <> "" ->
         fromResponse res = Return (mkApiError m (res_status res) json)) /\
     (truthy (optional_member "detail" json) = false ->
      truthy (optional_member "message" json) = false ->
      fromResponse res
      = Return (mkApiError (default_message res) (res_status res) json))) /\
  (json_typed res = false ->
   forall text : string, (Response_text res).1 = Return text ->
     fromResponse res
     = Return (mkApiError (if String.eqb text "" then default_message res else text)
                 (res_status res) (VString text))).
Proof.
  unfold fromResponse, json_typed. split; intros ->.
  - intros json Hjson. destruct (Response_json res) as [[json'|e] res']; [|done].
    simpl in Hjson. injection Hjson as ->. unfold or_else.
    split; [|split].
    + intros d -> Hd. rewrite !(truthy_nonempty d) by done. reflexivity.
    + intros m -> -> Hm. rewrite !(truthy_nonempty m) by done. reflexivity.
    + intros -> ->. reflexivity.
  - intros text Htext. destruct (Response_text res) as [[text'|e] res']; [|done].
    simpl in Htext. injection Htext as ->. unfold or_else. rewrite truthy_string.
    destruct (String.eqb text ""); reflexivity.
Qed.

Lemma fromResponse_message_witness :
  fromResponse
    (mkResponse 404 "Not Found" [("Content-Type", "application/json; charset=utf-8")]
       (Some (json_stream (VObject [("detail", VString "No such table")]))))
  = Return (mkApiError "No such table" 404 (VObject [("detail", VString "No such table")])).
Proof.
  set (res := mkResponse _ _ _ _).
  destruct (fromResponse_message res) as [Hjson _].
  destruct (Hjson eq_refl _ eq_refl) as [Hdetail _].
  apply Hdetail; [reflexivity|discriminate].
Defined.

(** A [detail] that is truthy and not a string is the message after the
    [Error] constructor has converted it: a list of validation errors
    reads [[object Object]]. *)
Example fromResponse_converts_detail :
  let errors :=
    VArray [VObject [("loc", VArray [VString "body"; VString "amount"]);
                     ("msg", VString "field required")]] in
  fromResponse
    (mkResponse 422 "Unprocessable Entity" [("content-type", "application/json")]
       (Some (json_stream (VObject [("detail", errors)]))))
  = Return (mkApiError "[object Object]" 422 (VObject [("detail", errors)])).
Proof. reflexivity. Qed.

(** C5, at a response declared as JSON whose [detail] is an object with
    a property called [toString]: the body is read and parsed, the object
    is chosen as message, and its conversion to a string in the [Error]
    constructor, outside the [try] statement, throws. *)
Theorem fromResponse_raises_on_toString_detail :
  fromResponse
    (mkResponse 422 "Unprocessable Entity" [("content-type", "application/json")]
       (Some (json_stream
                (VObject [("detail", VObject [("toString", VString "field required")])]))))
  = Throw (TypeError msg_to_primitive).
Proof. reflexivity. Qed.

(** C2, as stated, fails on an object whose [message] is not a string:
    the result is the fixed text and not the serialization. *)
Lemma handleApiError_non_string_message :
  let error := TValue (VObject [("message", VNumber "42")]) in
  handleApiError error = Return (VString fallback_text) /\
  handleApiError error <> Return (stated_classification error).
Proof. split; [reflexivity|discriminate]. Qed.

(** C2, amended: for an input that is an [ApiError], an [Error] or plain
    data ([null], a boolean, a number, a BigInt, a string, or an array or
    object built from such values through data properties, cyclic or
    not), [handleApiError] returns a string and does not raise: the
    message of an [ApiError]; the message of an [Error]; a string itself;
    for an object that has a [message] field, that field when it is a
    string and the fixed text otherwise; else the JSON serialization, and
    the fixed text when serializing throws. *)
Theorem handleApiError_classifies (error : thrown) :
  (exists v : value, handleApiError error = Return v) /\
  (error <> TValue VUndefined ->
   exists s : string,
     handleApiError error = Return (VString s) /\
     match error with
     | TApiError e => s = message e
     | TError _ m => s = m
     | TValue (VString t) => s = t
     | TValue v =>
         if has_property "message" v
         then s = match get_member "message" v with
                  | VString m => m
                  | _ => fallback_text
                  end
         else match JSON_stringify v with
              | Return (Some t) => s = t
              | Return None => False
              | Throw _ => s = fallback_text
              end
     end).
Proof.
  destruct error as [v|n m|e]; [|split; eauto..].
  rewrite handleApiError_value.
  destruct (is_string v) eqn:Hstr.
  { destruct v; try done. split; eauto. }
  destruct (has_property "message" v) eqn:Hmsg.
  { split; [by eauto|]. intros _.
    destruct v; try done.
    destruct (get_member "message" (VObject props)); simpl; eauto. }
  destruct (serialize_cases v) as [[t Ht]|[[e He]| ->]].
  - rewrite Ht. simpl. split; [by eauto|]. intros _. exists t. split; [done|].
    destruct v; try done; by rewrite ?Hmsg, Ht.
  - rewrite He. simpl. split; [by eauto|]. intros _. exists fallback_text. split; [done|].
    destruct v; try done; by rewrite ?Hmsg, He.
  - split; [by eauto|done].
Qed.

Lemma handleApiError_classifies_witness :
  handleApiError (TValue (VObject [("self", VCycle)])) = Return (VString fallback_text).
Proof.
  destruct (handleApiError_classifies (TValue (VObject [("self", VCycle)]))) as [_ Hstring].
  destruct Hstring as (s & Hs & Hspec); [discriminate|].
  simpl in Hspec. rewrite Hs. rewrite Hspec. reflexivity.
Defined.

(** The serialization lists the array indices of an object first,
    whatever the order in which its properties were created. *)
Example handleApiError_serializes_indices_first :
  handleApiError (TValue (VObject [("b", VNumber "1"); ("2", VNumber "1"); ("10", VNull)]))
  = handleApiError (TValue (VObject [("2", VNumber "1"); ("10", VNull); ("b", VNumber "1")])).
Proof. reflexivity. Qed.

(** The examples of the specification. *)
Example handleApiError_examples :
  handleApiError (TApiError (mkApiError "X" 500 VUndefined)) = Return (VString "X") /\
  handleApiError (TError "Error" "X") = Return (VString "X") /\
  handleApiError (TValue (VString "Y")) = Return (VString "Y") /\
  handleApiError (TValue (VObject [("message", VString "Z")])) = Return (VString "Z") /\
  handleApiError (TValue (VBigInt 10)) = Return (VString fallback_text) /\
  handleApiError (TValue VUndefined) = Return VUndefined.
Proof. repeat split. Qed.

(** C10, as stated, fails when [onError] itself throws: the wrapped
    function throws what [onError] threw. *)
Lemma withErrorHandler_rethrows_from_onError :
  let fn : unit -> M value := fun _ => throwM (TError "Error" "boom") in
  let onError : thrown -> M unit := fun error => throwM error in
  ~ exists r : option value,
      (withErrorHandler fn (Some onError) tt (answering (Throw (TValue VNull)))).1 = Return r.
Proof. intros fn onError [r Hr]. discriminate Hr. Qed.

(** C10, amended: the wrapped function returns the value of [fn] when
    [fn] returns; when [fn] throws [e], it calls [onError] on [e] if there
    is one and, provided that call returns, logs [e] and returns [null];
    when [onError] throws, the wrapped function throws the same. *)
Theorem withErrorHandler_contract {T R : Type}
    (fn : T -> M R) (onError : option (thrown -> M unit)) (args : T) (w : World) :
  (forall (r : R) (w1 : World),
      fn args w = (Return r, w1) ->
      withErrorHandler fn onError args w = (Return (Some r), w1)) /\
  (forall (e : thrown) (w1 : World),
      fn args w = (Throw e, w1) ->
      match onError with
      | None => withErrorHandler fn onError args w = (Return None, logged e w1)
      | Some h =>
          (forall w2 : World,
              h e w1 = (Return tt, w2) ->
              withErrorHandler fn onError args w = (Return None, logged e w2)) /\
          (forall (x : thrown) (w2 : World),
              h e w1 = (Throw x, w2) ->
              withErrorHandler fn onError args w = (Throw x, w2))
      end).
Proof.
  unfold withErrorHandler, catchM, mbind, M_bind, bindM. split.
  - intros r w1 ->. done.
  - intros e w1 ->. destruct onError as [h|]; [|done].
    split; [intros w2 ->|intros x w2 ->]; done.
Qed.

Lemma withErrorHandler_contract_witness :
  let fn : unit -> M value := fun _ => throwM (TError "Error" "boom") in
  let seen : thrown -> M unit := fun error => console_error "seen" error in
  (withErrorHandler fn (Some seen) tt (answering (Throw (TValue VNull)))).1 = Return None.
Proof.
  intros fn seen.
  destruct (withErrorHandler_contract fn (Some seen) tt (answering (Throw (TValue VNull))))
    as [_ Hthrow].
  destruct (Hthrow (TError "Error" "boom") (answering (Throw (TValue VNull))) eq_refl)
    as [Hreturns _].
  rewrite (Hreturns _ eq_refl). reflexivity.
Defined.

(** * The route handlers *)

Section handlers.
Local Open Scope list_scope.

Lemma get_set_if_truthy name n (x : option string) (h : Headers) :
  Headers_get name (set_if_truthy n x h)
  = if decide (lower name = lower n)
    then match nonempty x with
         | Some v => Some v
         | None => Headers_get name h
         end
    else Headers_get name h.
Proof.
  unfold set_if_truthy, nonempty. destruct x as [s|]; [|by destruct (decide _)].
  rewrite truthy_string. destruct (String.eqb s ""); cbn [negb].
  - by destruct (decide _).
  - apply Headers_get_set.
Qed.

(** The headers that both handlers put on the upstream request. *)
Lemma identity_headers_get name (request : Request) :
  Headers_get name
    (set_if_truthy "authorization" (Headers_get "authorization" (req_headers request))
       (set_if_truthy "cookie" (Headers_get "cookie" (req_headers request))
          (Headers_new None)))
  = forwarded name request.
Proof.
  rewrite !get_set_if_truthy. unfold forwarded.
  change (lower "authorization") with "authorization".
  change (lower "cookie") with "cookie".
  change (Headers_get name (Headers_new None)) with (@None string).
  destruct (decide (lower name = "authorization")) as [Ea|Ea].
  - rewrite (decide_True (P := _ \/ _)) by auto.
    rewrite !(Headers_get_lower name "authorization") by done.
    destruct (nonempty (Headers_get "authorization" (req_headers request))); [done|].
    rewrite decide_False; [done|]. rewrite Ea. discriminate.
  - destruct (decide (lower name = "cookie")) as [Ec|Ec].
    + rewrite (decide_True (P := _ \/ _)) by auto.
      rewrite !(Headers_get_lower name "cookie") by done.
      by destruct (nonempty (Headers_get "cookie" (req_headers request))).
    + by rewrite (decide_False (P := _ \/ _)) by tauto.
Qed.

(** Reading a body leaves the status and the headers as they are. *)
Lemma Response_json_status res :
  res_status (Response_json res).2 = res_status res.
Proof.
  unfold Response_json, consume_body. destruct (res_body res) as [s|]; [|done].
  destruct (disturbed s); [done|]. by destruct (stream_content s).
Qed.

(** One run of the day-summary handler. *)
Lemma DaySummary_run (request : Request) (w : World) :
  let headers :=
    set_if_truthy "authorization" (Headers_get "authorization" (req_headers request))
      (set_if_truthy "cookie" (Headers_get "cookie" (req_headers request))
         (Headers_new None)) in
  let call :=
    mkCall (UrlResolve ("/api/admin/day-summary" ++ req_search request)%string (API_BASE w))
      (mkInit (Some "GET") (Some (InitHeaders headers)) None None (Some "no-store")) in
  let w1 := mkWorld (window w) (env w) (network w) (sent w ++ [call]) (console w) in
  let caught := fun error : thrown =>
    (NextResponse_json (payload_internal error) 500,
     (console_error "Error in day-summary API route:" error w1).2) in
  DaySummary.GET request w
  = match network w call with
    | Throw e => caught e
    | Return res =>
        match (match Response_json res with
               | (Return data, _) => NextResponse_json data (res_status res)
               | (Throw _, res') =>
                   text ← (Response_text res').1;
                   NextResponse_json (payload_unparsed text) (res_status res')
               end) with
        | Return out => (Return out, w1)
        | Throw e => caught e
        end
    end.
Proof.
  intros. unfold DaySummary.GET, catchM, mbind, M_bind, bindM, readM, fetch, liftM.
  fold headers. fold call. fold w1.
  destruct (network w call) as [res|e]; [|done].
  destruct (Response_json res) as [[data|e] res'].
  - by destruct (NextResponse_json data (res_status res)).
  - destruct (Response_text res') as [[text|e'] res'']; simpl; [|done].
    by destruct (NextResponse_json _ (res_status res')).
Qed.

(** One run of the export-report handler. *)
Lemma ExportReport_run (request : Request) (w : World) :
  let headers :=
    set_if_truthy "authorization" (Headers_get "authorization" (req_headers request))
      (set_if_truthy "cookie" (Headers_get "cookie" (req_headers request))
         (Headers_new None)) in
  let call :=
    mkCall (UrlResolve ("/api/admin/export-report" ++ req_search request)%string (API_BASE w))
      (mkInit (Some "GET") (Some (InitHeaders headers)) None None (Some "no-store")) in
  let w1 := mkWorld (window w) (env w) (network w) (sent w ++ [call]) (console w) in
  let caught := fun error : thrown =>
    (NextResponse_json (payload_internal error) 500,
     (console_error "Error in export-report API route:" error w1).2) in
  ExportReport.GET request w
  = match network w call with
    | Throw e => caught e
    | Return res =>
        match NextResponse_new (res_body res) (res_status res)
                (Some (InitHeaders
                         (Headers_delete "content-encoding"
                            (Headers_new (Some (InitHeaders (res_headers res))))))) with
        | Return out => (Return out, w1)
        | Throw e => caught e
        end
    end.
Proof.
  intros. unfold ExportReport.GET, catchM, mbind, M_bind, bindM, readM, fetch, liftM.
  fold headers. fold call. fold w1.
  destruct (network w call) as [res|e]; [|done].
  by destruct (NextResponse_new _ _ _).
Qed.

Lemma status_in_range st : 200 <= st <= 599 -> (st <? 200) || (599 <? st) = false.
Proof. intros H. apply orb_false_iff. split; apply Z.ltb_ge; lia. Qed.

Lemma payload_internal_text (error : thrown) :
  exists body : string, JSON_stringify (payload_internal error) = Return (Some body).
Proof. eexists. reflexivity. Qed.

End handlers.

(** C4, on an upstream body that is not JSON: [res.json()] has read the
    stream when it fails, [res.text()] then finds the body unusable, and
    the handler answers with the internal-error payload at status 500,
    whatever the status of the upstream response; the payload
    [Failed to parse response] with the raw text is never produced for
    such a body. *)
Theorem day_summary_unparsable_body (request : Request) (w : World) :
  exists call : FetchCall,
    sent (DaySummary.GET request w).2 = (sent w ++ [call])%list /\
    forall (res : Response) (s : ReadableStream) (text : string),
      network w call = Return res ->
      res_body res = Some s -> disturbed s = false -> stream_content s = CText text ->
      exists body : string,
        JSON_stringify (payload_internal (TypeError msg_body_unusable)) = Return (Some body) /\
        (DaySummary.GET request w).1 = Return (json_response 500 body).
Proof.
  rewrite DaySummary_run. cbv zeta. eexists. split.
  - destruct (network w _) as [res|e]; [|done].
    by destruct (match Response_json res with (Return _, _) => _ | (Throw _, _) => _ end).
  - intros res s text -> Hbody Hfresh Htext.
    destruct (payload_internal_text (TypeError msg_body_unusable)) as [body Hp].
    exists body. split; [done|].
    unfold Response_json, Response_text, consume_body. rewrite Hbody, Hfresh, Htext.
    cbn -[NextResponse_json payload_internal]. unfold NextResponse_json.
    by rewrite Hp.
Qed.

Lemma day_summary_unparsable_body_witness :
  let upstream :=
    mkResponse 502 "Bad Gateway" [("content-type", "text/html")]
      (Some (text_stream "<html>Bad Gateway</html>")) in
  exists out : NextResponse,
    (DaySummary.GET (mkRequest "?date=2024-05-01" [("cookie", "sid=1")])
       (answering (Return upstream))).1 = Return out /\
    out_status out = 500.
Proof.
  intros upstream.
  destruct (day_summary_unparsable_body (mkRequest "?date=2024-05-01" [("cookie", "sid=1")])
              (answering (Return upstream))) as (call & _ & Hrun).
  destruct (Hrun upstream (text_stream "<html>Bad Gateway</html>") "<html>Bad Gateway</html>"
              eq_refl eq_refl eq_refl eq_refl) as (body & _ & Hout).
  exists (json_response 500 body). split; [exact Hout|reflexivity].
Defined.

(** A body that parses is relayed at the status of the upstream
    response. *)
Lemma day_summary_relays_json (request : Request) (w : World) :
  exists call : FetchCall,
    sent (DaySummary.GET request w).2 = (sent w ++ [call])%list /\
    forall (res : Response) (s : ReadableStream) (text body : string) (json : value),
      network w call = Return res -> fetched res ->
      res_body res = Some s -> stream_content s = CJson text json ->
      JSON_stringify json = Return (Some body) ->
      (DaySummary.GET request w).1 = Return (json_response (res_status res) body).
Proof.
  rewrite DaySummary_run. cbv zeta. eexists. split.
  - destruct (network w _) as [res|e]; [|done].
    by destruct (match Response_json res with (Return _, _) => _ | (Throw _, _) => _ end).
  - intros res s text body json -> (Hrange & Hnull & Hfresh) Hbody Hjson Hser.
    unfold Response_json, consume_body. rewrite Hbody, (Hfresh s Hbody), Hjson.
    unfold NextResponse_json. rewrite Hser. cbn -[Response_initialize].
    unfold Response_initialize. rewrite status_in_range by done.
    destruct (null_body_status (res_status res)) eqn:E; [|done].
    specialize (Hnull eq_refl). congruence.
Qed.

(** A failure of the call itself is answered at status 500. *)
Lemma day_summary_transport_failure (request : Request) (w : World) :
  exists call : FetchCall,
    forall e : thrown,
      network w call = Throw e ->
      exists body : string,
        JSON_stringify (payload_internal e) = Return (Some body) /\
        (DaySummary.GET request w).1 = Return (json_response 500 body).
Proof.
  rewrite DaySummary_run. cbv zeta. eexists. intros e ->.
  destruct (payload_internal_text e) as [body Hp]. exists body. split; [done|].
  cbn -[NextResponse_json payload_internal]. unfold NextResponse_json. by rewrite Hp.
Qed.

(** C6, as stated, fails on an upstream status that a [Response] cannot
    carry: building the outgoing response throws, and the handler answers
    at status 500. *)
Lemma export_report_refuses_status_999 :
  let upstream :=
    mkResponse 999 "Request Denied" [("content-type", "text/html")]
      (Some (text_stream "<html>denied</html>")) in
  exists out : NextResponse,
    (ExportReport.GET (mkRequest "" []) (answering (Return upstream))).1 = Return out /\
    out_status out = 500 /\
    out_status out <> res_status upstream.
Proof. eexists. split; [reflexivity|]. split; [reflexivity|discriminate]. Qed.

(** C6, amended: for an upstream response as [fetch] delivers it (body
    unread, no body with a null body status) whose status lies in 200 to
    599, the export-report handler answers with the same status and the
    same body stream, unread, and with headers that read as the upstream
    headers do under every name except [content-encoding], which is
    absent, the values of [set-cookie] staying apart; nothing is logged.
    For a status outside 200 to 599 the handler logs the [RangeError] of
    the response constructor and answers at status 500 with the
    internal-error payload. *)
Theorem export_report_relays (request : Request) (w : World) :
  exists call : FetchCall,
    sent (ExportReport.GET request w).2 = (sent w ++ [call])%list /\
    forall res : Response,
      network w call = Return res -> delivered res ->
      (200 <= res_status res <= 599 ->
       exists out : NextResponse,
         (ExportReport.GET request w).1 = Return out /\
         out_status out = res_status res /\
         out_body out = FromStream <$> res_body res /\
         Headers_has "content-encoding" (out_headers out) = false /\
         (forall name : string,
             lower name <> "content-encoding" ->
             Headers_get name (out_headers out) = Headers_get name (res_headers res)) /\
         values_of "set-cookie" (out_headers out)
         = values_of "set-cookie" (res_headers res) /\
         console (ExportReport.GET request w).2 = console w) /\
      (~ 200 <= res_status res <= 599 ->
       exists body : string,
         JSON_stringify (payload_internal (RangeError msg_status_range))
         = Return (Some body) /\
         (ExportReport.GET request w).1 = Return (json_response 500 body) /\
         console (ExportReport.GET request w).2
         = (console w ++ [("Error in export-report API route:",
                           RangeError msg_status_range)])%list).
Proof.
  rewrite ExportReport_run. cbv zeta. eexists. split.
  - destruct (network w _) as [res|e]; [|done].
    by destruct (NextResponse_new _ _ _).
  - intros res -> (Hnull & Hfresh). split.
    + intros Hrange.
      set (outHeaders := Headers_delete _ _).
      assert (Hget : forall name,
                Headers_get name (Headers_new (Some (InitHeaders outHeaders)))
                = if decide (lower name = "content-encoding") then None
                  else Headers_get name (res_headers res)).
      { intros name. rewrite Headers_get_copy. unfold outHeaders.
        rewrite Headers_get_delete, Headers_get_copy. done. }
      assert (Hcookies : values_of "set-cookie" (Headers_new (Some (InitHeaders outHeaders)))
                         = values_of "set-cookie" (res_headers res)).
      { unfold outHeaders. cbn [Headers_new].
        rewrite values_of_fill, values_of_entries, values_of_delete.
        cbn [values_of named filter app]. rewrite decide_True by done.
        rewrite decide_False by done.
        by rewrite values_of_fill, values_of_entries, decide_True by done. }
      assert (Hout : NextResponse_new (res_body res) (res_status res)
                       (Some (InitHeaders outHeaders))
                     = Return (mkNextResponse (res_status res)
                                 (Headers_new (Some (InitHeaders outHeaders)))
                                 (FromStream <$> res_body res))).
      { unfold NextResponse_new, Response_initialize.
        destruct (res_body res) as [s|] eqn:Hbody; rewrite status_in_range by done; [|done].
        rewrite (Hfresh s eq_refl).
        destruct (null_body_status (res_status res)) eqn:E; [|done].
        specialize (Hnull eq_refl). congruence. }
      rewrite Hout. eexists. split; [reflexivity|]. cbn [fst snd out_status out_body out_headers console].
      split; [done|]. split; [done|]. split; [|split; [|split; [exact Hcookies|done]]].
      * rewrite Headers_has_get, Hget. by rewrite decide_True.
      * intros name Hname. rewrite Hget. by rewrite decide_False.
    + intros Hrange.
      assert (Hout : forall h, NextResponse_new (res_body res) (res_status res) h
                               = Throw (RangeError msg_status_range)).
      { intros h. unfold NextResponse_new, Response_initialize.
        assert (Hr : (res_status res <? 200) || (599 <? res_status res) = true).
        { apply orb_true_iff. rewrite !Z.ltb_lt. lia. }
        destruct (res_body res) as [s|] eqn:Hbody; [rewrite (Hfresh s eq_refl)|];
          by rewrite Hr. }
      rewrite Hout.
      destruct (payload_internal_text (RangeError msg_status_range)) as [body Hp].
      exists body. split; [exact Hp|].
      cbn -[NextResponse_json payload_internal]. unfold NextResponse_json. by rewrite Hp.
Qed.

Lemma export_report_relays_witness :
  let upstream :=
    mkResponse 200 "OK"
      [("Content-Type", "text/csv"); ("Content-Encoding", "gzip");
       ("Content-Disposition", "attachment")]
      (Some (text_stream "table,amount")) in
  exists out : NextResponse,
    (ExportReport.GET (mkRequest "" []) (answering (Return upstream))).1 = Return out /\
    out_status out = 200 /\
    Headers_has "Content-Encoding" (out_headers out) = false /\
    Headers_get "Content-Type" (out_headers out) = Some "text/csv".
Proof.
  intros upstream.
  destruct (export_report_relays (mkRequest "" []) (answering (Return upstream)))
    as (call & _ & Hrun).
  destruct (Hrun upstream eq_refl) as [Hrelay _].
  { split; [discriminate|]. intros s Hs. injection Hs as <-. reflexivity. }
  destruct Hrelay as (out & Hout & Hstatus & _ & Hce & Hget & _); [simpl; lia|].
  exists out. split; [exact Hout|]. split; [exact Hstatus|]. split; [exact Hce|].
  rewrite (Hget "Content-Type"); [reflexivity|discriminate].
Defined.

Section forwarding.
Local Open Scope list_scope.

Lemma DaySummary_sent (request : Request) (w : World) :
  sent (DaySummary.GET request w).2
  = sent w ++
    [mkCall (UrlResolve ("/api/admin/day-summary" ++ req_search request)%string (API_BASE w))
       (mkInit (Some "GET")
          (Some (InitHeaders
                   (set_if_truthy "authorization"
                      (Headers_get "authorization" (req_headers request))
                      (set_if_truthy "cookie" (Headers_get "cookie" (req_headers request))
                         (Headers_new None)))))
          None None (Some "no-store"))].
Proof.
  rewrite DaySummary_run. cbv zeta.
  destruct (network w _) as [res|e]; [|done].
  by destruct (match Response_json res with (Return _, _) => _ | (Throw _, _) => _ end).
Qed.

Lemma ExportReport_sent (request : Request) (w : World) :
  sent (ExportReport.GET request w).2
  = sent w ++
    [mkCall (UrlResolve ("/api/admin/export-report" ++ req_search request)%string (API_BASE w))
       (mkInit (Some "GET")
          (Some (InitHeaders
                   (set_if_truthy "authorization"
                      (Headers_get "authorization" (req_headers request))
                      (set_if_truthy "cookie" (Headers_get "cookie" (req_headers request))
                         (Headers_new None)))))
          None None (Some "no-store"))].
Proof.
  rewrite ExportReport_run. cbv zeta.
  destruct (network w _) as [res|e]; [|done].
  by destruct (NextResponse_new _ _ _).
Qed.

End forwarding.

(** C9, as stated, fails on an inbound header that is present with an
    empty value: it is not forwarded. *)
Lemma proxy_drops_empty_cookie :
  let request := mkRequest "?date=2024-05-01" [("cookie", ""); ("accept", "*/*")] in
  exists call : FetchCall,
    sent (DaySummary.GET request (answering (Throw (TValue VNull)))).2 = [call] /\
    Headers_has "cookie" (req_headers request) = true /\
    Headers_has "cookie" (call_headers call) = false.
Proof. eexists. split; [reflexivity|]. split; reflexivity. Qed.

(** C9, amended: each handler makes one upstream call; under [cookie]
    and under [authorization] its request carries the inbound value when
    that value is present and not empty, and nothing otherwise; under
    every other name it carries nothing; and two inbound requests with
    the same query string and the same [cookie] and [authorization] are
    forwarded as the same call, whatever their other headers. *)
Theorem proxies_forward_identity_only (request : Request) (w : World) :
  exists ca cb : FetchCall,
    sent (DaySummary.GET request w).2 = (sent w ++ [ca])%list /\
    sent (ExportReport.GET request w).2 = (sent w ++ [cb])%list /\
    (forall name : string,
        Headers_get name (call_headers ca) = forwarded name request /\
        Headers_get name (call_headers cb) = forwarded name request) /\
    (forall request' : Request,
        req_search request' = req_search request ->
        Headers_get "cookie" (req_headers request')
        = Headers_get "cookie" (req_headers request) ->
        Headers_get "authorization" (req_headers request')
        = Headers_get "authorization" (req_headers request) ->
        sent (DaySummary.GET request' w).2 = (sent w ++ [ca])%list /\
        sent (ExportReport.GET request' w).2 = (sent w ++ [cb])%list).
Proof.
  eexists. eexists.
  split; [apply DaySummary_sent|]. split; [apply ExportReport_sent|]. split.
  - intros name. unfold call_headers. cbn [call_init init_headers].
    rewrite !Headers_get_copy. split; apply identity_headers_get.
  - intros request' Hsearch Hcookie Hauth.
    rewrite DaySummary_sent, ExportReport_sent. by rewrite Hsearch, Hcookie, Hauth.
Qed.

Lemma proxies_forward_identity_only_witness :
  let request := mkRequest "?date=2024-05-01" [("cookie", "sid=1")] in
  let request' := mkRequest "?date=2024-05-01" [("x-custom", "1"); ("Cookie", "sid=1")] in
  let w := answering (Throw (TValue VNull)) in
  sent (DaySummary.GET request' w).2 = sent (DaySummary.GET request w).2 /\
  sent (ExportReport.GET request' w).2 = sent (ExportReport.GET request w).2.
Proof.
  intros request request' w.
  destruct (proxies_forward_identity_only request w) as (ca & cb & Ha & Hb & _ & Hsame).
  destruct (Hsame request' eq_refl eq_refl eq_refl) as [Ha' Hb'].
  split; [exact (eq_trans Ha' (eq_sym Ha))|exact (eq_trans Hb' (eq_sym Hb))].
Defined.

(** * Further facts *)

Section further.
Local Open Scope list_scope.

(** ** The token store *)

Lemma getToken_setToken (token : string) (w : World) :
  window w <> None -> (getToken (setToken token w).2).1 = Return (Some token).
Proof.
  unfold setToken, getToken, readM. destruct (window w) as [storage|]; [|done].
  intros _. simpl. by rewrite lookup_insert_eq.
Qed.

Lemma getToken_clearToken (w : World) : (getToken (clearToken w).2).1 = Return None.
Proof.
  unfold clearToken, getToken, readM. destruct (window w) as [storage|] eqn:E; simpl.
  - by rewrite lookup_delete_eq.
  - by rewrite E.
Qed.

Lemma getToken_no_window (w : World) : window w = None -> (getToken w).1 = Return None.
Proof. unfold getToken, readM. by intros ->. Qed.

(** ** The record built by [mergeHeaders], name by name *)

Lemma elem_of_update_or_add_same k v (o : list (string * string)) :
  (k, v) ∈ update_or_add k v o.
Proof.
  induction o as [|[k' x] o IH]; simpl; [left|].
  destruct (String.eqb_spec k' k) as [->|_]; [left|by right].
Qed.

Lemma elem_of_update_or_add_other p k v (o : list (string * string)) :
  p ∈ o -> p.1 <> k -> p ∈ update_or_add k v o.
Proof.
  induction o as [|[k' x] o IH]; simpl; [by intros ?%elem_of_nil|].
  intros [->|Hp]%elem_of_cons Hk.
  - destruct (String.eqb_spec k' k) as [E|_]; [done|left].
  - destruct (String.eqb_spec k' k) as [_|_]; right; auto.
Qed.

(** Under the exact spelling of the injected names the injected values
    do win: the record handed to [fetch] maps [Content-Type] to
    [application/json] and, with a token, [Authorization] to the bearer
    value, whatever the caller passes. *)
Lemma mergeHeaders_injected (a : option HeadersInit) (token : option string) :
  ("Content-Type", "application/json") ∈ mergeHeaders a (injected token) /\
  forall v : string, bearer token = Some v ->
    ("Authorization", v) ∈ mergeHeaders a (injected token).
Proof.
  rewrite mergeHeaders_split. unfold injected, bearer.
  set (o := mergeHeaders a []).
  assert (Hct : ("Content-Type", "application/json")
                ∈ obj_set "Content-Type" "application/json" o)
    by apply elem_of_update_or_add_same.
  destruct token as [t|]; [|split; [exact Hct|done]].
  rewrite truthy_string. destruct (String.eqb t ""); simpl; [split; [exact Hct|done]|].
  split.
  - by apply elem_of_update_or_add_other.
  - intros v [= <-]. apply elem_of_update_or_add_same.
Qed.

(** ** [apiFetch] and a caller who writes the name in capitals *)

Example apiFetch_keeps_caller_authorization :
  let init := mkInit None (Some (InitRecord [("AUTHORIZATION", "Basic dXNlcg==")])) None None None in
  exists call : FetchCall,
    sent (apiFetch "/api/me" init (browser {[TOKEN_KEY := "abc"]} (Throw (TValue VNull)))).2
    = [call] /\
    Headers_get "Authorization" (call_headers call) = Some "Basic dXNlcg==".
Proof. eexists. split; reflexivity. Qed.

(** ** When [fromResponse] throws *)

Lemma ApiError_new_throws msg st det e :
  ApiError_new msg st det = Throw e -> ToString msg = Throw e.
Proof.
  unfold ApiError_new.
  destruct msg; try discriminate; destruct (ToString _) eqn:E; simpl; congruence.
Qed.

(** [fromResponse] throws only out of the string conversion of a value
    taken from a parsed JSON body. *)
Lemma fromResponse_throws_only_in_conversion (res : Response) (e : thrown) :
  fromResponse res = Throw e ->
  json_typed res = true /\
  exists json : value,
    (Response_json res).1 = Return json /\
    ToString (or_else (or_else (optional_member "detail" json)
                         (optional_member "message" json))
                (VString (default_message res))) = Throw e.
Proof.
  unfold fromResponse, json_typed. destruct (includes _ _).
  - destruct (Response_json res) as [[json|e'] res']; [|done].
    intros H%ApiError_new_throws. split; [done|]. by exists json.
  - destruct (Response_text res) as [[text|e'] res']; [|done].
    unfold or_else. rewrite truthy_string. by destruct (String.eqb text "").
Qed.

End further.

(** * The token store and the selected table *)

Section storage.
Local Open Scope list_scope.

Lemma stored_after_setToken t w storage :
  window w = Some storage ->
  window (setToken t w).2 = Some (<[TOKEN_KEY := t]> storage).
Proof. unfold setToken. by intros ->. Qed.

Lemma stored_after_clearToken w storage :
  window w = Some storage ->
  window (clearToken w).2 = Some (delete TOKEN_KEY storage).
Proof. unfold clearToken. by intros ->. Qed.

Lemma stored_after_setSelectedTableId id w storage :
  window w = Some storage ->
  window (setSelectedTableId id w).2 = Some (<[TABLE_KEY := id]> storage).
Proof. unfold setSelectedTableId. by intros ->. Qed.

Lemma getSelectedTableId_run Number w :
  (getSelectedTableId Number w).1
  = Return (match window w with
            | None => None
            | Some storage =>
                match storage !! TABLE_KEY with
                | None => None
                | Some s =>
                    if String.eqb s "" then None
                    else if is_finite (Number s) then Some (Number s) else None
                end
            end).
Proof.
  unfold getSelectedTableId, readM. cbn [fst]. f_equal.
  destruct (window w) as [storage|]; [|done].
  destruct (storage !! TABLE_KEY) as [s|]; [|done].
  rewrite truthy_string. by destruct (String.eqb s "").
Qed.

End storage.

(** X1: in a browser the stored token is what was written last:
    [getToken] (and its alias [getAccessToken]) returns the token of the
    latest [setToken], and [null] once [clearToken] has run. *)
Theorem token_store_last_write_wins (t1 t2 : string) (w : World) :
  window w <> None ->
  (getToken (setToken t1 w).2).1 = Return (Some t1) /\
  (getToken (setToken t2 (setToken t1 w).2).2).1 = Return (Some t2) /\
  (getToken (clearToken (setToken t1 w).2).2).1 = Return None /\
  (getToken (setToken t2 (clearToken w).2).2).1 = Return (Some t2) /\
  (getAccessToken (setToken t1 w).2).1 = Return (Some t1).
Proof.
  intros Hw. destruct (window w) as [storage|] eqn:E; [clear Hw|done].
  unfold getAccessToken. rewrite !getToken_run. unfold stored_token.
  pose proof (stored_after_setToken t1 w storage E) as H1.
  pose proof (stored_after_clearToken w storage E) as Hc.
  rewrite (stored_after_setToken t2 _ _ H1), (stored_after_clearToken _ _ H1),
    (stored_after_setToken t2 _ _ Hc), H1. simpl.
  by rewrite !lookup_insert_eq, lookup_delete_eq.
Qed.

Lemma token_store_last_write_wins_witness :
  (getToken (setToken "new" (setToken "old" (browser ∅ (Throw (TValue VNull)))).2).2).1
  = Return (Some "new").
Proof.
  destruct (token_store_last_write_wins "old" "new" (browser ∅ (Throw (TValue VNull))))
    as (_ & Hlast & _); [discriminate|exact Hlast].
Defined.

(** X2: where there is no [window], every store operation leaves the
    world as it is and every read returns [null], whatever was written
    before. *)
Theorem store_without_window (Number : string -> string) (t id : string) (w : World) :
  window w = None ->
  setToken t w = (Return tt, w) /\
  clearToken w = (Return tt, w) /\
  setSelectedTableId id w = (Return tt, w) /\
  (getToken (setToken t w).2).1 = Return None /\
  (getSelectedTableId Number (setSelectedTableId id w).2).1 = Return None.
Proof.
  intros Hw. unfold setToken, clearToken, setSelectedTableId. rewrite Hw.
  repeat split; try done.
  - rewrite getToken_run. unfold stored_token. simpl. by rewrite Hw.
  - rewrite getSelectedTableId_run. simpl. by rewrite Hw.
Qed.

Lemma store_without_window_witness :
  (getToken (setToken "abc" (answering (Throw (TValue VNull)))).2).1 = Return None.
Proof.
  destruct (store_without_window (fun s => s) "abc" "7" (answering (Throw (TValue VNull)))
              eq_refl) as (_ & _ & _ & Hget & _).
  exact Hget.
Defined.

(** X3: the token and the selected table do not disturb each other:
    writing or clearing the token leaves the selected table as it was,
    selecting a table leaves the token as it was, and none of the three
    touches the environment, the calls made or the console. *)
Theorem token_and_table_are_independent
    (Number : string -> string) (t id : string) (w : World) :
  let untouched w' := env w' = env w /\ sent w' = sent w /\ console w' = console w in
  (getSelectedTableId Number (setToken t w).2).1 = (getSelectedTableId Number w).1 /\
  (getSelectedTableId Number (clearToken w).2).1 = (getSelectedTableId Number w).1 /\
  (getToken (setSelectedTableId id w).2).1 = (getToken w).1 /\
  untouched (setToken t w).2 /\
  untouched (clearToken w).2 /\
  untouched (setSelectedTableId id w).2.
Proof.
  cbv zeta. rewrite !getSelectedTableId_run, !getToken_run. unfold stored_token.
  destruct (window w) as [storage|] eqn:E.
  - rewrite (stored_after_setToken t w storage E), (stored_after_clearToken w storage E),
      (stored_after_setSelectedTableId id w storage E).
    rewrite lookup_insert_ne, lookup_delete_ne, lookup_insert_ne by done.
    unfold setToken, clearToken, setSelectedTableId. rewrite E. done.
  - unfold setToken, clearToken, setSelectedTableId. rewrite E. simpl. rewrite E. done.
Qed.

(** X4: [getSelectedTableId] returns [null] when nothing is stored, when
    the stored text is empty and when its conversion to a number is not
    finite; a number it returns is finite; and it returns the id that
    [setSelectedTableId] stored whenever the conversion reads the
    rendering of that id back as the id. *)
Theorem getSelectedTableId_finite_or_null (Number : string -> string) (w : World) :
  (forall storage : gmap string string,
      window w = Some storage ->
      storage !! TABLE_KEY = None \/ storage !! TABLE_KEY = Some "" ->
      (getSelectedTableId Number w).1 = Return None) /\
  (forall (storage : gmap string string) (s : string),
      window w = Some storage -> storage !! TABLE_KEY = Some s ->
      is_finite (Number s) = false ->
      (getSelectedTableId Number w).1 = Return None) /\
  (forall n : string,
      (getSelectedTableId Number w).1 = Return (Some n) -> is_finite n = true) /\
  (forall id : string,
      window w <> None -> id <> "" -> Number id = id -> is_finite id = true ->
      (getSelectedTableId Number (setSelectedTableId id w).2).1 = Return (Some id)).
Proof.
  repeat split.
  - intros storage E [H|H]; rewrite getSelectedTableId_run, E, H; done.
  - intros storage s E H Hfin. rewrite getSelectedTableId_run, E, H, Hfin.
    by destruct (String.eqb s "").
  - intros n. rewrite getSelectedTableId_run.
    destruct (window w) as [storage|]; [|done].
    destruct (storage !! TABLE_KEY) as [s|]; [|done].
    destruct (String.eqb s ""); [done|].
    destruct (is_finite (Number s)) eqn:Hfin; [|done]. by intros [= <-].
  - intros id Hw Hid Hnum Hfin. destruct (window w) as [storage|] eqn:E; [|done].
    rewrite getSelectedTableId_run, (stored_after_setSelectedTableId id w storage E).
    rewrite lookup_insert_eq, Hnum, Hfin. by destruct (String.eqb_spec id "").
Qed.

Lemma getSelectedTableId_finite_or_null_witness :
  (getSelectedTableId (fun _ => "NaN")
     (browser {[TABLE_KEY := "not-a-number"]} (Throw (TValue VNull)))).1 = Return None.
Proof.
  destruct (getSelectedTableId_finite_or_null (fun _ => "NaN")
              (browser {[TABLE_KEY := "not-a-number"]} (Throw (TValue VNull))))
    as (_ & Hnan & _).
  apply (Hnan {[TABLE_KEY := "not-a-number"]} "not-a-number"); reflexivity.
Defined.

(** * [mergeHeaders], property by property *)

Section merge.
Local Open Scope list_scope.
Implicit Types (o l : list (string * string)) (k v : string).

Lemma record_get_update_or_add k k' v o :
  record_get k (update_or_add k' v o)
  = if String.eqb k' k then Some v else record_get k o.
Proof.
  induction o as [|[k0 x] o IH]; simpl; [done|].
  destruct (String.eqb_spec k0 k') as [->|Hk]; simpl.
  - by destruct (String.eqb k' k).
  - rewrite IH. destruct (String.eqb_spec k0 k) as [->|_]; [|done].
    destruct (String.eqb_spec k' k) as [->|_]; done.
Qed.

Lemma record_get_Object_assign k target source :
  record_get k (Object_assign target source)
  = if String.eqb k "__proto__" then record_get k target
    else match last_value k source with
         | Some v => Some v
         | None => record_get k target
         end.
Proof.
  unfold Object_assign. revert target.
  induction source as [|[k' v] source IH]; intros target; simpl.
  - by destruct (String.eqb k "__proto__").
  - rewrite IH. unfold obj_set.
    destruct (String.eqb_spec k "__proto__") as [->|Hk].
    + destruct (String.eqb_spec k' "__proto__") as [->|Hk']; [done|].
      rewrite record_get_update_or_add. by destruct (String.eqb_spec k' "__proto__").
    + destruct (last_value k source); [done|].
      destruct (String.eqb_spec k' "__proto__") as [->|Hk'].
      * by destruct (String.eqb_spec "__proto__" k).
      * rewrite record_get_update_or_add. by destruct (String.eqb k' k).
Qed.

Lemma mergeHeaders_assign a b :
  mergeHeaders a b = Object_assign (Object_assign [] (caller_entries a)) b.
Proof. by destruct a as [[pairs|h|o]|]. Qed.

Lemma keys_update_or_add k v o :
  (update_or_add k v o).*1 = if bool_decide (k ∈ o.*1) then o.*1 else o.*1 ++ [k].
Proof.
  induction o as [|[k' x] o IH]; [done|]. cbn [update_or_add].
  destruct (String.eqb_spec k' k) as [->|Hk]; rewrite !fmap_cons; cbn [fst].
  - by rewrite bool_decide_eq_true_2 by left.
  - rewrite IH. destruct (bool_decide (k ∈ o.*1)) eqn:E.
    + apply bool_decide_eq_true in E. by rewrite bool_decide_eq_true_2 by (by right).
    + apply bool_decide_eq_false in E. rewrite bool_decide_eq_false_2; [done|].
      intros [?|?]%elem_of_cons; congruence.
Qed.

Lemma NoDup_keys_update_or_add k v o : NoDup o.*1 -> NoDup (update_or_add k v o).*1.
Proof.
  intros Hnd. rewrite keys_update_or_add. destruct (bool_decide (k ∈ o.*1)) eqn:E; [done|].
  apply bool_decide_eq_false in E. apply NoDup_app. split; [done|]. split.
  - intros x Hx ->%list_elem_of_singleton. done.
  - apply NoDup_singleton.
Qed.

Lemma NoDup_keys_Object_assign target source :
  NoDup target.*1 -> NoDup (Object_assign target source).*1.
Proof.
  unfold Object_assign. revert target.
  induction source as [|[k v] source IH]; intros target Hnd; simpl; [done|].
  apply IH. unfold obj_set. destruct (String.eqb k "__proto__"); [done|].
  by apply NoDup_keys_update_or_add.
Qed.

Lemma record_get_elem_of k v o : NoDup o.*1 -> (k, v) ∈ o <-> record_get k o = Some v.
Proof.
  induction o as [|[k' x] o IH]; simpl; intros Hnd.
  - split; [by intros ?%elem_of_nil|done].
  - apply NoDup_cons in Hnd as [Hk' Hnd].
    destruct (String.eqb_spec k' k) as [->|Hk].
    + split; [|intros [= ->]; left].
      intros [[= ->]|Hin]%elem_of_cons; [done|].
      exfalso. apply Hk'. by apply (list_elem_of_fmap_2' fst _ (k, v)).
    + rewrite <- IH by done. split; [|by right].
      intros [[= -> ->]|Hin]%elem_of_cons; done.
Qed.

End merge.

(** X5: the record that [mergeHeaders] returns has one property per
    name; under a name other than [__proto__] it holds the value that the
    last of [b]'s pairs of that exact name gives, and failing that the
    value of the last such pair of the caller, so that of two array
    entries with one name only the second survives; [__proto__] is never
    a property of it. *)
Theorem mergeHeaders_last_pair_wins (a : option HeadersInit) (b : list (string * string)) :
  NoDup (mergeHeaders a b).*1 /\
  record_get "__proto__" (mergeHeaders a b) = None /\
  forall k : string,
    k <> "__proto__" ->
    record_get k (mergeHeaders a b)
    = match last_value k b with
      | Some v => Some v
      | None => last_value k (caller_entries a)
      end.
Proof.
  rewrite mergeHeaders_assign. split; [|split].
  - apply NoDup_keys_Object_assign, NoDup_keys_Object_assign. constructor.
  - by rewrite !record_get_Object_assign.
  - intros k Hk. rewrite !record_get_Object_assign.
    destruct (String.eqb_spec k "__proto__") as [|_]; [done|].
    destruct (last_value k b); [done|]. by destruct (last_value k (caller_entries a)).
Qed.

Lemma mergeHeaders_last_pair_wins_witness :
  record_get "Accept"
    (mergeHeaders (Some (InitArray [("Accept", "text/csv"); ("Accept", "text/plain")])) [])
  = Some "text/plain".
Proof.
  destruct (mergeHeaders_last_pair_wins
              (Some (InitArray [("Accept", "text/csv"); ("Accept", "text/plain")])) [])
    as (_ & _ & Hget).
  rewrite (Hget "Accept"); [reflexivity|discriminate].
Defined.

(** * [request]: what reaches the wire under each name *)

Section outgoing.
Local Open Scope list_scope.
Implicit Types (o l : list (string * string)) (k v n : string).

Lemma values_of_cons n k v o :
  values_of n ((k, v) :: o)
  = (if decide (lower k = lower n) then [v] else []) ++ values_of n o.
Proof.
  change ((k, v) :: o) with ([(k, v)] ++ o). by rewrite values_of_app, values_of_single.
Qed.

(** In a record with one property per name, a name that is the only
    spelling of itself reads as its own value. *)
Lemma values_of_only_spelling k v o :
  NoDup o.*1 ->
  (forall p, p ∈ o -> lower p.1 = lower k -> p.1 = k) ->
  (k, v) ∈ o ->
  values_of k o = [v].
Proof.
  induction o as [|[k' x] o IH]; intros Hnd Hsp Hin; [by apply elem_of_nil in Hin|].
  rewrite fmap_cons in Hnd. apply NoDup_cons in Hnd as [Hk' Hnd]. cbn [fst] in Hk'.
  rewrite values_of_cons.
  apply elem_of_cons in Hin as [[= <- <-]|Hin].
  - rewrite decide_True by done.
    assert (values_of k o = []) as ->; [|done].
    apply values_of_nil_iff. intros p Hp E. apply Hk'.
    rewrite <- (Hsp p) by (by right || done). by apply list_elem_of_fmap_2.
  - assert (k' <> k) as Hne.
    { intros ->. apply Hk'. by apply (list_elem_of_fmap_2' fst _ (k, v)). }
    rewrite decide_False.
    + apply IH; [done| |done]. intros p Hp. apply Hsp. by right.
    + intros E. apply Hne. by apply (Hsp (k', x)); [left|].
Qed.

Lemma values_of_update_or_add_other n k v o :
  lower k <> lower n -> values_of n (update_or_add k v o) = values_of n o.
Proof.
  intros Hk. induction o as [|[k' x] o IH]; cbn [update_or_add].
  - by rewrite values_of_single, decide_False.
  - destruct (String.eqb_spec k' k) as [->|_]; rewrite !values_of_cons.
    + by rewrite !decide_False.
    + by rewrite IH.
Qed.

Lemma values_of_obj_set_other n k v o :
  lower k <> lower n -> values_of n (obj_set k v o) = values_of n o.
Proof.
  intros Hk. unfold obj_set. destruct (String.eqb k "__proto__"); [done|].
  by apply values_of_update_or_add_other.
Qed.

Lemma values_of_Object_assign_other n target source :
  (forall p, p ∈ source -> lower p.1 <> lower n) ->
  values_of n (Object_assign target source) = values_of n target.
Proof.
  unfold Object_assign. revert target.
  induction source as [|[k v] source IH]; intros target H; simpl; [done|].
  rewrite IH by (intros p Hp; apply H; by right).
  apply values_of_obj_set_other. by apply (H (k, v)); left.
Qed.

Lemma Object_assign_app target l1 l2 :
  Object_assign target (l1 ++ l2) = Object_assign (Object_assign target l1) l2.
Proof. unfold Object_assign. apply fold_left_app. Qed.

(** Assigning a record with one property per name to an empty object
    copies it. *)
Lemma Object_assign_copy target o :
  NoDup (target ++ o).*1 -> "__proto__" ∉ o.*1 -> Object_assign target o = target ++ o.
Proof.
  revert target. induction o as [|[k v] o IH]; intros target Hnd Hp.
  - by rewrite app_nil_r.
  - change ((k, v) :: o) with ([(k, v)] ++ o) in *.
    rewrite Object_assign_app. rewrite app_assoc in Hnd |- *.
    assert (Object_assign target [(k, v)] = target ++ [(k, v)]) as ->.
    { unfold Object_assign, obj_set. simpl.
      destruct (String.eqb_spec k "__proto__") as [->|_].
      - exfalso. apply Hp. rewrite fmap_app. apply elem_of_app. left. left.
      - apply update_or_add_fresh. intros p Hin E.
        rewrite !fmap_app in Hnd. apply NoDup_app in Hnd as [Hnd _].
        apply NoDup_app in Hnd as (_ & Hdis & _).
        apply (Hdis p.1); [by apply list_elem_of_fmap_2|]. rewrite E. left. }
    apply IH; [done|]. intros Hin. apply Hp. rewrite fmap_app. apply elem_of_app. by right.
Qed.

Lemma entries_split h n :
  n ∈ sorted_names h -> n <> "set-cookie" ->
  exists l1 l2,
    Headers_entries h = l1 ++ [(n, String.concat ", " (values_of n h))] ++ l2 /\
    (forall p, p ∈ l1 ++ l2 -> lower p.1 <> n).
Proof.
  intros Hin Hsc. pose proof (sorted_names_NoDup h) as Hnd.
  assert (Hlow : forall m, m ∈ sorted_names h -> lower m = m).
  { intros m (q & _ & ->)%elem_of_sorted_names. apply lower_idem. }
  unfold Headers_entries.
  set (f := fun m : string => if String.eqb m "set-cookie" then _ else _).
  assert (Hf : forall m p, p ∈ f m -> p.1 = m).
  { intros m p. unfold f. destruct (String.eqb m "set-cookie").
    - by intros (x & -> & _)%list_elem_of_fmap.
    - by intros ->%list_elem_of_singleton. }
  apply list_elem_of_split in Hin as (s1 & s2 & Hs). rewrite Hs in Hnd, Hlow |- *.
  exists (flat_map f s1), (flat_map f s2). split.
  - rewrite flat_map_app. cbn [flat_map]. f_equal.
    assert (f n = [(n, String.concat ", " (values_of n h))]) as ->; [|done].
    unfold f. by destruct (String.eqb_spec n "set-cookie").
  - apply NoDup_app in Hnd as (_ & Hdis & Hnd2). apply NoDup_cons in Hnd2 as [Hn2 _].
    intros p [Hp|Hp]%elem_of_app;
      apply list_elem_of_In, in_flat_map in Hp as (m & Hm%list_elem_of_In & Hp%list_elem_of_In);
      rewrite (Hf m p Hp).
    + rewrite Hlow by (apply elem_of_app; by left). intros ->.
      apply (Hdis n Hm). left.
    + rewrite Hlow by (apply elem_of_app; right; by right). by intros ->.
Qed.

(** What [mergeHeaders] makes of a [Headers] object reads like the
    object, under every name but [set-cookie] and [__proto__]. *)
Lemma values_of_merged_Headers n h :
  lower n <> "set-cookie" -> lower n <> "__proto__" ->
  Headers_get n (mergeHeaders (Some (InitHeaders h)) []) = Headers_get n h.
Proof.
  intros Hsc Hpr. rewrite mergeHeaders_assign. cbn [caller_entries].
  unfold Object_assign at 1. cbn [fold_left].
  destruct (decide (lower n ∈ sorted_names h)) as [Hin|Hin].
  - destruct (entries_split h (lower n) Hin Hsc) as (l1 & l2 & -> & Hother).
    rewrite !Object_assign_app. unfold Headers_get.
    rewrite values_of_Object_assign_other
      by (intros p Hp; apply Hother, elem_of_app; by right).
    rewrite <- (values_of_lower n (Object_assign _ [_])).
    assert (values_of (lower n) (Object_assign [] l1) = []) as Hnil.
    { apply values_of_nil_iff. intros p [Hp|Hp]%elem_of_Object_assign;
        [by apply elem_of_nil in Hp|].
      rewrite lower_idem. apply Hother, elem_of_app. by left. }
    unfold Object_assign at 1. cbn [fold_left fst snd].
    rewrite values_of_obj_set_fresh by done.
    rewrite values_of_lower.
    apply elem_of_sorted_names in Hin as (q & Hq & Hl).
    destruct (values_of n h) eqn:E; [|done].
    exfalso. by apply (proj1 (values_of_nil_iff n h) E q).
  - assert (values_of n h = []) as Hnil.
    { apply values_of_nil_iff. intros q Hq E. apply Hin, elem_of_sorted_names. eauto. }
    unfold Headers_get. rewrite Hnil.
    assert (values_of n (Object_assign [] (Headers_entries h)) = []) as ->; [|done].
    apply values_of_nil_iff. intros p [Hp|Hp]%elem_of_Object_assign;
      [by apply elem_of_nil in Hp|].
    apply elem_of_entries in Hp as (q & Hq & ->). rewrite lower_idem.
    by apply (proj1 (values_of_nil_iff n h) Hnil q).
Qed.

Lemma elem_of_merged p a token :
  p ∈ mergeHeaders a (injected token) ->
  p ∈ caller_entries a \/ p ∈ injected token.
Proof.
  rewrite mergeHeaders_assign.
  intros [[Hp|Hp]%elem_of_Object_assign|Hp]%elem_of_Object_assign; auto.
  by apply elem_of_nil in Hp.
Qed.

Lemma injected_names p token :
  p ∈ injected token -> p.1 = "Content-Type" \/ p.1 = "Authorization".
Proof.
  unfold injected. intros [->|Hp]%elem_of_cons; [by left|].
  destruct token as [t|]; [|by apply elem_of_nil in Hp].
  destruct (truthy (VString t)); [|by apply elem_of_nil in Hp].
  apply list_elem_of_singleton in Hp as ->. by right.
Qed.

Lemma Headers_get_of_record n o :
  Headers_get n (Headers_new (Some (InitRecord o))) = Headers_get n o.
Proof. simpl. apply Headers_get_fill. Qed.

End outgoing.

(** X6: when every header of the caller that is called [Content-Type] up
    to case is spelled exactly so, the request that [request] sends reads
    [Content-Type: application/json]; and when, with a stored non-empty
    token, the same holds of [Authorization], it reads
    [Authorization: Bearer <token>]. The caller's own value is replaced. *)
Theorem request_overrides_same_spelling (path : string) (options : RequestInit) (w : World) :
  exists call : FetchCall,
    sent (request path options w).2 = (sent w ++ [call])%list /\
    ((forall p, p ∈ caller_entries (init_headers options) ->
                lower p.1 = "content-type" -> p.1 = "Content-Type") ->
     Headers_get "Content-Type" (call_headers call) = Some "application/json") /\
    (forall t : string,
        stored_token w = Some t -> t <> "" ->
        (forall p, p ∈ caller_entries (init_headers options) ->
                   lower p.1 = "authorization" -> p.1 = "Authorization") ->
        Headers_get "Authorization" (call_headers call) = Some ("Bearer " ++ t)).
Proof.
  rewrite request_run. eexists. split; [reflexivity|].
  unfold call_headers. cbn [call_init init_headers].
  set (a := init_headers options). set (b := injected (stored_token w)).
  assert (Hnd : NoDup (mergeHeaders a b).*1).
  { rewrite mergeHeaders_assign. apply NoDup_keys_Object_assign, NoDup_keys_Object_assign.
    constructor. }
  assert (Hread : forall k v, k <> "__proto__" -> last_value k b = Some v ->
                              (k, v) ∈ mergeHeaders a b).
  { intros k v Hk Hv. apply record_get_elem_of; [done|].
    rewrite mergeHeaders_assign, record_get_Object_assign, Hv.
    by destruct (String.eqb_spec k "__proto__"). }
  assert (Hone : forall k v,
             (k = "Content-Type" \/ k = "Authorization") ->
             last_value k b = Some v ->
             (forall p, p ∈ caller_entries a -> lower p.1 = lower k -> p.1 = k) ->
             Headers_get k (Headers_new (Some (InitRecord (mergeHeaders a b)))) = Some v).
  { intros k v Hk Hv Hsp. rewrite Headers_get_of_record. unfold Headers_get.
    rewrite (values_of_only_spelling k v); [done|done| |].
    - intros p [Hp|Hp]%elem_of_merged E; [by apply Hsp|].
      apply injected_names in Hp. destruct Hk as [-> | ->], Hp as [Hp|Hp];
        rewrite Hp in E |- *; done.
    - apply Hread; [|done]. by destruct Hk as [-> | ->]. }
  split.
  - intros Hsp. apply Hone; [by left| |done].
    unfold b, injected. destruct (stored_token w) as [t|]; [|done].
    by destruct (truthy (VString t)).
  - intros t Ht Hne Hsp. apply Hone; [by right| |done].
    unfold b, injected. rewrite Ht, truthy_nonempty by done. done.
Qed.

Lemma request_overrides_same_spelling_witness :
  exists call : FetchCall,
    sent (request "/api/tables"
            (mkInit (Some "POST")
               (Some (InitRecord [("Content-Type", "text/plain"); ("X-Trace", "1")]))
               (Some "x") None None)
            (answering (Throw (TValue VNull)))).2 = [call] /\
    Headers_get "Content-Type" (call_headers call) = Some "application/json".
Proof.
  destruct (request_overrides_same_spelling "/api/tables"
              (mkInit (Some "POST")
                 (Some (InitRecord [("Content-Type", "text/plain"); ("X-Trace", "1")]))
                 (Some "x") None None)
              (answering (Throw (TValue VNull)))) as (call & Hsent & Hct & _).
  exists call. split; [exact Hsent|]. apply Hct.
  intros p Hp. simpl in Hp.
  apply elem_of_cons in Hp as [->|Hp]; [reflexivity|].
  apply list_elem_of_singleton in Hp as ->. discriminate.
Defined.

(** X7: [request] makes one call, to the API origin followed by the
    path, with the caller's method, body and credentials and with the
    cache disabled; and under every name other than [Content-Type] and
    [Authorization] the request reads like the caller's headers, for a
    caller who passes a record with one property per name and for a
    caller who passes a [Headers] object (there but for [set-cookie]). *)
Theorem request_passes_other_headers (path : string) (options : RequestInit) (w : World) :
  exists call : FetchCall,
    sent (request path options w).2 = (sent w ++ [call])%list /\
    (request path options w).1 = network w call /\
    call_url call = UrlString (API w ++ path) /\
    init_method (call_init call) = init_method options /\
    init_body (call_init call) = init_body options /\
    init_credentials (call_init call) = init_credentials options /\
    init_cache (call_init call) = Some "no-store" /\
    (forall n : string,
        lower n <> "content-type" -> lower n <> "authorization" ->
        (forall o : list (string * string),
            init_headers options = Some (InitRecord o) ->
            NoDup o.*1 -> "__proto__" ∉ o.*1 ->
            Headers_get n (call_headers call) = Headers_get n o) /\
        (forall h : list (string * string),
            init_headers options = Some (InitHeaders h) ->
            lower n <> "set-cookie" -> lower n <> "__proto__" ->
            Headers_get n (call_headers call) = Headers_get n h)).
Proof.
  rewrite request_run. eexists. repeat (split; [reflexivity|]).
  intros n Hct Hau. unfold call_headers. cbn [call_init init_headers].
  rewrite Headers_get_of_record, mergeHeaders_split.
  assert (Hframe : forall o,
            Headers_get n (Object_assign o (injected (stored_token w))) = Headers_get n o).
  { intros o. unfold Headers_get. rewrite values_of_Object_assign_other; [done|].
    intros p [Hp|Hp]%injected_names; rewrite Hp; intros E;
      [apply Hct|apply Hau]; by rewrite <- E. }
  rewrite Hframe. split.
  - intros o -> Hnd Hpr. rewrite mergeHeaders_assign. cbn [caller_entries].
    unfold Object_assign at 1. cbn [fold_left].
    by rewrite (Object_assign_copy [] o).
  - intros h -> Hsc Hpr. by apply values_of_merged_Headers.
Qed.

Lemma request_passes_other_headers_witness :
  exists call : FetchCall,
    sent (request "/api/tables"
            (mkInit None (Some (InitHeaders [("Accept", "text/csv"); ("accept", "text/plain")]))
               None None None)
            (answering (Throw (TValue VNull)))).2 = [call] /\
    Headers_get "Accept" (call_headers call) = Some "text/csv, text/plain".
Proof.
  destruct (request_passes_other_headers "/api/tables"
              (mkInit None (Some (InitHeaders [("Accept", "text/csv"); ("accept", "text/plain")]))
                 None None None)
              (answering (Throw (TValue VNull))))
    as (call & Hsent & _ & _ & _ & _ & _ & _ & Hget).
  exists call. split; [exact Hsent|].
  destruct (Hget "Accept") as [_ Hh]; [discriminate|discriminate|].
  rewrite (Hh _ eq_refl); [reflexivity|discriminate|discriminate].
Defined.

(** * [apiJson], [apiText], [apiBlob] *)

Section wrappers.
Local Open Scope list_scope.

(** One run of a wrapper that decodes an ok response with [decode]. *)
Lemma wrapper_run {A} (decode : Response -> completion A) path options w :
  let call :=
    mkCall (UrlString (API w ++ path)%string)
      (mkInit (init_method options)
         (Some (InitRecord (mergeHeaders (init_headers options) (injected (stored_token w)))))
         (init_body options) (init_credentials options) (Some "no-store")) in
  (res ← request path options;
   if negb (res_ok res)
   then (err ← liftM (fromResponse res); throwM (TApiError err))
   else liftM (decode res)) w
  = (match network w call with
     | Return res =>
         if res_ok res then decode res
         else match fromResponse res with
              | Return err => Throw (TApiError err)
              | Throw e => Throw e
              end
     | Throw e => Throw e
     end,
     mkWorld (window w) (env w) (network w) (sent w ++ [call]) (console w)).
Proof.
  intros. unfold mbind at 1. unfold M_bind, bindM. rewrite request_run. fold call.
  destruct (network w call) as [res|e]; [|done].
  destruct (res_ok res); simpl; [done|].
  unfold mbind, M_bind, bindM, liftM, throwM. by destruct (fromResponse res).
Qed.

Lemma fresh_body_json res s t json :
  res_body res = Some s -> disturbed s = false -> stream_content s = CJson t json ->
  (Response_json res).1 = Return json /\ (Response_text res).1 = Return t /\
  (Response_blob res).1 = Return (mkBlob (CJson t json)).
Proof.
  intros Hb Hd Hc. unfold Response_json, Response_text, Response_blob, consume_body.
  by rewrite Hb, Hd, Hc.
Qed.

Lemma fresh_body_text res s t :
  res_body res = Some s -> disturbed s = false -> stream_content s = CText t ->
  (Response_json res).1 = Throw (SyntaxError msg_json_parse) /\
  (Response_text res).1 = Return t /\
  (Response_blob res).1 = Return (mkBlob (CText t)).
Proof.
  intros Hb Hd Hc. unfold Response_json, Response_text, Response_blob, consume_body.
  by rewrite Hb, Hd, Hc.
Qed.

Lemma null_body_reads res :
  res_body res = None ->
  (Response_json res).1 = Throw (SyntaxError msg_json_parse) /\
  (Response_text res).1 = Return "" /\
  (Response_blob res).1 = Return (mkBlob (CText "")).
Proof.
  intros Hb. unfold Response_json, Response_text, Response_blob, consume_body.
  by rewrite Hb.
Qed.

Lemma fromResponse_status res err : fromResponse res = Return err -> status err = res_status res.
Proof.
  unfold fromResponse, ApiError_new.
  destruct (let '(_, _) := _ in _) eqn:E; [|done].
  revert E. destruct (if includes _ _ then _ else _) as [m d].
  destruct (match m with VUndefined => _ | _ => _ end); simpl; [|done].
  by intros [= <-] [= <-].
Qed.

(** For a response that is not declared as JSON, [fromResponse]
    returns. *)
Lemma fromResponse_text_returns res :
  json_typed res = false -> exists err : ApiError, fromResponse res = Return err.
Proof.
  unfold fromResponse, json_typed. intros ->.
  destruct (Response_text res) as [[text|e] res']; [|by eauto].
  unfold or_else. rewrite truthy_string. destruct (String.eqb text ""); by eauto.
Qed.

End wrappers.

(** X8: [apiJson] makes one call; a failure of the call is passed on; an
    ok response whose body is JSON gives the parsed value; an ok response
    whose body is not JSON, or that has no body (a 204), makes it throw
    the [SyntaxError] of the parser, not an [ApiError]; and a response
    that is not ok makes it throw what [fromResponse] yields for that
    response: the [ApiError] it returns, which carries the status of the
    response, or else the error it raises; [fromResponse] returns
    whenever the response is not declared as JSON. *)
Theorem apiJson_contract (path : string) (options : RequestInit) (w : World) :
  exists call : FetchCall,
    sent (apiJson path options w).2 = (sent w ++ [call])%list /\
    init_cache (call_init call) = Some "no-store" /\
    (forall e : thrown,
        network w call = Throw e -> (apiJson path options w).1 = Throw e) /\
    (forall res : Response,
        network w call = Return res -> res_ok res = true ->
        (forall (s : ReadableStream) (t : string) (json : value),
            res_body res = Some s -> disturbed s = false ->
            stream_content s = CJson t json ->
            (apiJson path options w).1 = Return json) /\
        (forall (s : ReadableStream) (t : string),
            res_body res = Some s -> disturbed s = false ->
            stream_content s = CText t ->
            (apiJson path options w).1 = Throw (SyntaxError msg_json_parse)) /\
        (res_body res = None ->
         (apiJson path options w).1 = Throw (SyntaxError msg_json_parse))) /\
    (forall res : Response,
        network w call = Return res -> res_ok res = false ->
        (apiJson path options w).1
        = match fromResponse res with
          | Return err => Throw (TApiError err)
          | Throw e => Throw e
          end /\
        (forall err : ApiError,
            fromResponse res = Return err -> status err = res_status res) /\
        (json_typed res = false ->
         exists err : ApiError, fromResponse res = Return err)).
Proof.
  unfold apiJson. rewrite (wrapper_run (fun res => (Response_json res).1)). cbv zeta.
  eexists. split; [reflexivity|]. split; [reflexivity|]. cbn [fst]. split; [|split].
  - by intros e ->.
  - intros res -> ->. split; [|split].
    + intros s t json Hb Hd Hc. by apply (fresh_body_json res s t json).
    + intros s t Hb Hd Hc. by apply (fresh_body_text res s t).
    + intros Hb. by apply null_body_reads.
  - intros res -> ->. split; [done|]. split.
    + intros err. apply fromResponse_status.
    + apply fromResponse_text_returns.
Qed.

Lemma apiJson_contract_witness :
  (apiJson "/api/closing" (mkInit (Some "POST") None None None None)
     (answering (Return (mkResponse 204 "No Content" [] None)))).1
  = Throw (SyntaxError msg_json_parse).
Proof.
  destruct (apiJson_contract "/api/closing" (mkInit (Some "POST") None None None None)
              (answering (Return (mkResponse 204 "No Content" [] None))))
    as (call & _ & _ & _ & Hok & _).
  destruct (Hok (mkResponse 204 "No Content" [] None) eq_refl eq_refl) as (_ & _ & Hnull).
  apply Hnull. reflexivity.
Defined.

(** X9: [apiText] and [apiBlob] hand over the body of an ok response
    without decoding it: the text of a JSON body is returned as text, a
    response without body gives the empty text and the empty blob; a
    failure of the call is passed on, and a response that is not ok makes
    both throw what [fromResponse] yields for it: the [ApiError] it
    returns, or else the error it raises; [fromResponse] returns whenever
    the response is not declared as JSON. *)
Theorem apiText_apiBlob_contract (path : string) (options : RequestInit) (w : World) :
  exists call : FetchCall,
    sent (apiText path options w).2 = (sent w ++ [call])%list /\
    sent (apiBlob path options w).2 = (sent w ++ [call])%list /\
    (forall e : thrown,
        network w call = Throw e ->
        (apiText path options w).1 = Throw e /\ (apiBlob path options w).1 = Throw e) /\
    (forall res : Response,
        network w call = Return res -> res_ok res = true ->
        (forall s : ReadableStream,
            res_body res = Some s -> disturbed s = false ->
            (forall (t : string) (json : value),
                stream_content s = CJson t json ->
                (apiText path options w).1 = Return t /\
                (apiBlob path options w).1 = Return (mkBlob (CJson t json))) /\
            (forall t : string,
                stream_content s = CText t ->
                (apiText path options w).1 = Return t /\
                (apiBlob path options w).1 = Return (mkBlob (CText t)))) /\
        (res_body res = None ->
         (apiText path options w).1 = Return "" /\
         (apiBlob path options w).1 = Return (mkBlob (CText "")))) /\
    (forall res : Response,
        network w call = Return res -> res_ok res = false ->
        (apiText path options w).1
        = match fromResponse res with
          | Return err => Throw (TApiError err)
          | Throw e => Throw e
          end /\
        (apiBlob path options w).1
        = match fromResponse res with
          | Return err => Throw (TApiError err)
          | Throw e => Throw e
          end /\
        (json_typed res = false ->
         exists err : ApiError, fromResponse res = Return err)).
Proof.
  unfold apiText, apiBlob.
  rewrite (wrapper_run (fun res => (Response_text res).1)),
    (wrapper_run (fun res => (Response_blob res).1)). cbv zeta.
  eexists. split; [reflexivity|]. split; [reflexivity|]. cbn [fst]. split; [|split].
  - by intros e ->.
  - intros res -> ->. split.
    + intros s Hb Hd. split.
      * intros t json Hc. by destruct (fresh_body_json res s t json Hb Hd Hc) as (_ & -> & ->).
      * intros t Hc. by destruct (fresh_body_text res s t Hb Hd Hc) as (_ & -> & ->).
    + intros Hb. by destruct (null_body_reads res Hb) as (_ & -> & ->).
  - intros res -> ->. split; [done|]. split; [done|]. apply fromResponse_text_returns.
Qed.

Lemma apiText_apiBlob_contract_witness :
  let body := VObject [("total", VNumber "12")] in
  exists t : string,
    (apiText "/api/report" no_init
       (answering (Return (mkResponse 200 "OK" [] (Some (json_stream body)))))).1 = Return t /\
    JSON_stringify body = Return (Some t).
Proof.
  intros body.
  destruct (apiText_apiBlob_contract "/api/report" no_init
              (answering (Return (mkResponse 200 "OK" [] (Some (json_stream body))))))
    as (call & _ & _ & _ & Hok & _).
  destruct (Hok (mkResponse 200 "OK" [] (Some (json_stream body))) eq_refl eq_refl)
    as [Hfresh _].
  destruct (Hfresh (json_stream body) eq_refl eq_refl) as [Hjson _].
  destruct (Hjson _ body eq_refl) as [Htext _].
  eexists. split; [exact Htext|reflexivity].
Defined.



(** * [apiDownload]: the file name *)

Section filename.
Local Open Scope list_scope.
Implicit Types (s name pre post key rest : string) (c : ascii).

Lemma lower_char_dquote c : lower_char c = dquote -> c = dquote.
Proof. destruct c as [[] [] [] [] [] [] [] []]; (discriminate || reflexivity). Qed.

Lemma append_cons c s1 s2 : (String c s1 ++ s2)%string = String c (s1 ++ s2)%string.
Proof. reflexivity. Qed.

Lemma lower_app s1 s2 : lower (s1 ++ s2)%string = (lower s1 ++ lower s2)%string.
Proof. induction s1 as [|c s1 IH]; simpl; [done|]. by rewrite IH. Qed.

Lemma span_unquoted_app s :
  ((span_unquoted s).1 ++ (span_unquoted s).2)%string = s.
Proof.
  induction s as [|c s IH]; [done|]. cbn [span_unquoted].
  destruct (Ascii.eqb c dquote); [done|].
  destruct (span_unquoted s) as [n a]. cbn [fst snd] in *. by rewrite <- IH.
Qed.

Lemma span_unquoted_name s : unquoted (span_unquoted s).1 = true.
Proof.
  unfold unquoted. induction s as [|c s IH]; simpl; [done|].
  destruct (Ascii.eqb c dquote) eqn:E; [done|].
  destruct (span_unquoted s) as [n a]. simpl in *. rewrite E.
  by destruct (span_unquoted n).
Qed.

Lemma span_unquoted_after s c rest :
  (span_unquoted s).2 = String c rest -> c = dquote.
Proof.
  induction s as [|c' s IH]; simpl; [done|].
  destruct (Ascii.eqb_spec c' dquote) as [->|_]; simpl; [by intros [= <- _]|].
  destruct (span_unquoted s) as [n a]. simpl in *. done.
Qed.

Lemma unquoted_cons c s :
  unquoted (String c s) = negb (Ascii.eqb c dquote) && unquoted s.
Proof.
  unfold unquoted. simpl. destruct (Ascii.eqb c dquote); [done|].
  by destruct (span_unquoted s).
Qed.

Lemma unquoted_app s1 s2 : unquoted (s1 ++ s2)%string = unquoted s1 && unquoted s2.
Proof.
  induction s1 as [|c s1 IH]; [reflexivity|].
  rewrite append_cons, !unquoted_cons, IH. by rewrite andb_assoc.
Qed.

Lemma unquoted_lower s : unquoted (lower s) = unquoted s.
Proof.
  induction s as [|c s IH]; [done|]. cbn [lower]. rewrite !unquoted_cons, IH. f_equal. f_equal.
  destruct (Ascii.eqb_spec c dquote) as [->|Hc]; [done|].
  destruct (Ascii.eqb_spec (lower_char c) dquote) as [E|_]; [|done].
  by apply lower_char_dquote in E.
Qed.

(** The span of a text in front of a double quote. *)
Lemma span_unquoted_before name post :
  unquoted name = true ->
  span_unquoted (name ++ String dquote post)%string = (name, String dquote post).
Proof.
  induction name as [|c name IH]; [done|]. rewrite unquoted_cons.
  intros [Hc Hn]%andb_true_iff. rewrite ?append_cons; cbn [span_unquoted].
  destruct (Ascii.eqb c dquote); [done|]. by rewrite IH.
Qed.

Lemma iprefix_split pattern s :
  iprefix pattern s = true ->
  exists key rest,
    s = (key ++ rest)%string /\ lower key = pattern /\
    drop_chars (String.length pattern) s = rest.
Proof.
  revert s. induction pattern as [|p pattern IH]; intros s; simpl.
  - intros _. by exists EmptyString, s.
  - destruct s as [|c s]; [done|].
    intros [Hc%Ascii.eqb_eq Hs]%andb_true_iff.
    destruct (IH s Hs) as (key & rest & -> & <- & Hd).
    exists (String c key), rest. simpl. by rewrite Hc.
Qed.

Lemma iprefix_lower key rest : iprefix (lower key) (key ++ rest)%string = true.
Proof.
  induction key as [|c key IH]; simpl; [done|]. by rewrite Ascii.eqb_refl.
Qed.

Lemma drop_chars_app key rest : drop_chars (String.length key) (key ++ rest)%string = rest.
Proof. induction key as [|c key IH]; simpl; [by destruct rest|done]. Qed.

Lemma lower_length s : String.length (lower s) = String.length s.
Proof. induction s as [|c s IH]; simpl; [done|]. by rewrite IH. Qed.

(** A text that matches the key at its head has its first double quote
    at the tenth character. *)
Lemma iprefix_key_span s :
  iprefix filename_key s = true -> String.length (span_unquoted s).1 = 9%nat.
Proof.
  intros (key & rest & -> & Hkey & _)%iprefix_split.
  do 10 (destruct key as [|? key]; [discriminate Hkey|]).
  destruct key; [|discriminate Hkey].
  injection Hkey as H0 H1 H2 H3 H4 H5 H6 H7 H8 H9.
  apply lower_char_dquote in H9 as ->.
  rewrite ?append_cons; cbn [span_unquoted].
  repeat match goal with
         | H : lower_char ?c = _ |- context [Ascii.eqb ?c dquote] =>
             destruct (Ascii.eqb_spec c dquote) as [->|_]; [discriminate H|]; clear H
         end.
  rewrite Ascii.eqb_refl.
  repeat match goal with
         | |- context [let '(_, _) := (?a, ?b) in _] => cbn beta iota
         end.
  reflexivity.
Qed.

Lemma span_length_app pre s :
  unquoted pre = true ->
  String.length (span_unquoted (pre ++ s)%string).1
  = (String.length pre + String.length (span_unquoted s).1)%nat.
Proof.
  induction pre as [|c pre IH]; [done|]. rewrite unquoted_cons.
  intros [Hc Hp]%andb_true_iff. rewrite ?append_cons; cbn [span_unquoted].
  destruct (Ascii.eqb c dquote); [done|].
  specialize (IH Hp). destruct (span_unquoted (pre ++ s)%string). simpl in *. by rewrite IH.
Qed.

Lemma match_filename_here_unquoted s : unquoted s = true -> match_filename_here s = None.
Proof.
  intros Hs. unfold match_filename_here.
  destruct (iprefix filename_key s) eqn:E; [|done].
  apply iprefix_split in E as (key & rest & -> & Hkey & _).
  rewrite unquoted_app in Hs. apply andb_true_iff in Hs as [Hs _].
  by rewrite <- unquoted_lower, Hkey in Hs.
Qed.

(** No double quote, no match. *)
Lemma exec_filename_unquoted s : unquoted s = true -> exec_filename s = None.
Proof.
  induction s as [|c s IH]; intros Hs.
  - done.
  - cbn [exec_filename]. rewrite (match_filename_here_unquoted _ Hs).
    apply IH. rewrite unquoted_cons in Hs. by apply andb_true_iff in Hs as [_ ?].
Qed.

Lemma match_filename_here_sound s name :
  match_filename_here s = Some name ->
  name <> "" /\ unquoted name = true /\
  exists key post,
    s = (key ++ name ++ String dquote post)%string /\ lower key = filename_key.
Proof.
  unfold match_filename_here. destruct (iprefix filename_key s) eqn:E; [|done].
  apply iprefix_split in E as (key & rest & -> & Hkey & Hdrop).
  change (String.length filename_key) with 10%nat in Hdrop. rewrite Hdrop.
  pose proof (span_unquoted_app rest) as Happ.
  pose proof (span_unquoted_name rest) as Hname.
  pose proof (span_unquoted_after rest) as Hafter.
  destruct (span_unquoted rest) as [n a]. simpl in *.
  destruct n as [|c n]; [done|]. destruct a as [|q a]; [done|].
  intros [= <-]. rewrite (Hafter q a eq_refl) in Happ.
  split; [done|]. split; [done|]. exists key, a. by rewrite Happ.
Qed.

(** What [exec] finds is a non-empty text without double quote that
    stands in the header between the key and a double quote. *)
Lemma exec_filename_sound s name :
  exec_filename s = Some name ->
  name <> "" /\ unquoted name = true /\
  exists pre key post,
    s = (pre ++ key ++ name ++ String dquote post)%string /\ lower key = filename_key.
Proof.
  induction s as [|c s IH]; cbn [exec_filename].
  - destruct (match_filename_here "") eqn:E; [|done].
    intros [= <-]. apply match_filename_here_sound in E as (? & ? & key & post & ? & ?).
    repeat split; try done. by exists EmptyString, key, post.
  - destruct (match_filename_here (String c s)) eqn:E.
    + intros [= <-]. apply match_filename_here_sound in E as (? & ? & key & post & ? & ?).
      repeat split; try done. by exists EmptyString, key, post.
    + intros (? & ? & pre & key & post & -> & ?)%IH. repeat split; try done.
      by exists (String c pre), key, post.
Qed.

(** A quoted file name after the key is found when no double quote
    stands in front of the key. *)
Lemma exec_filename_quoted pre key name post :
  unquoted pre = true -> lower key = filename_key ->
  name <> "" -> unquoted name = true ->
  exec_filename (pre ++ key ++ name ++ String dquote post)%string = Some name.
Proof.
  intros Hpre Hkey Hne Hname.
  assert (Hlen : String.length key = 10%nat).
  { by rewrite <- lower_length, Hkey. }
  assert (Hhere : match_filename_here (key ++ name ++ String dquote post)%string = Some name).
  { unfold match_filename_here. rewrite <- Hkey at 1. rewrite iprefix_lower.
    rewrite <- Hlen, drop_chars_app, span_unquoted_before by done.
    by destruct name. }
  induction pre as [|c pre IH].
  - change (EmptyString ++ key ++ name ++ String dquote post)%string
      with (key ++ name ++ String dquote post)%string.
    destruct (key ++ name ++ String dquote post)%string eqn:E;
      cbn [exec_filename]; by rewrite Hhere.
  - rewrite unquoted_cons in Hpre. apply andb_true_iff in Hpre as [Hc Hpre].
    rewrite ?append_cons; cbn [exec_filename].
    assert (match_filename_here (String c (pre ++ key ++ name ++ String dquote post))
            = None) as ->; [|by apply IH].
    unfold match_filename_here.
    destruct (iprefix filename_key _) eqn:E; [|done].
    apply iprefix_key_span in E.
    change (String c (pre ++ key ++ name ++ String dquote post))%string
      with (String c pre ++ (key ++ name ++ String dquote post))%string in E.
    rewrite span_length_app in E by (by rewrite unquoted_cons, Hc, Hpre).
    rewrite (iprefix_key_span (key ++ name ++ String dquote post)) in E
      by (rewrite <- Hkey; apply iprefix_lower).
    simpl in E. lia.
Qed.

End filename.

Section download.
Local Open Scope list_scope.

(** One run of [apiDownload]. *)
Lemma apiDownload_run path fallbackFilename w :
  let call :=
    mkCall (UrlString (API w ++ path)%string)
      (mkInit (Some "GET")
         (Some (InitRecord (mergeHeaders None (injected (stored_token w)))))
         None None (Some "no-store")) in
  let fallback :=
    match fallbackFilename with
    | Some f => if String.eqb f "" then "export.bin" else f
    | None => "export.bin"
    end in
  apiDownload path fallbackFilename w
  = (match network w call with
    | Return res =>
        if res_ok res then
          match (Response_blob res).1 with
          | Return blob =>
              match window w with
              | None => Throw (TError "ReferenceError" "document is not defined")
              | Some _ =>
                  Return (saved_as blob
                            (match exec_filename
                                     (default "" (Headers_get "content-disposition"
                                                    (res_headers res))) with
                             | Some name => if String.eqb name "" then fallback else name
                             | None => fallback
                             end))
              end
          | Throw e => Throw e
          end
        else match fromResponse res with
             | Return err => Throw (TApiError err)
             | Throw e => Throw e
             end
    | Throw e => Throw e
    end,
    mkWorld (window w) (env w) (network w) (sent w ++ [call]) (console w)).
Proof.
  intros. unfold apiDownload. unfold mbind at 1. unfold M_bind, bindM.
  rewrite request_run. cbn [init_method init_headers init_body init_credentials].
  fold call. destruct (network w call) as [res|e]; [|done].
  destruct (res_ok res); cbn [negb].
  - unfold mbind, M_bind, bindM, liftM, retM, readM, throwM.
    destruct (Response_blob res).1 as [blob|e]; [|done]. cbn [window].
    destruct (window w) as [storage|]; [|done].
    f_equal. f_equal. unfold saved_as, fallback. f_equal. f_equal.
    destruct fallbackFilename as [f|]; rewrite ?truthy_string;
      destruct (exec_filename _) as [name|]; rewrite ?truthy_string;
      repeat match goal with |- context [String.eqb ?x ""] => destruct (String.eqb x "") end;
      reflexivity.
  - unfold mbind, M_bind, bindM, liftM, throwM. by destruct (fromResponse res).
Qed.

End download.

(** X11: in a browser [apiDownload] makes one GET call and, for an ok
    response whose body can be read, saves the body under the quoted file
    name of the
    [content-disposition] header: the text between [filename=] and the
    next double quote, the key being read in any case, when that text is
    not empty and no double quote stands in front of the key. *)
Theorem apiDownload_uses_quoted_filename
    (path : string) (fallbackFilename : option string) (w : World) :
  window w <> None ->
  exists call : FetchCall,
    sent (apiDownload path fallbackFilename w).2 = (sent w ++ [call])%list /\
    init_method (call_init call) = Some "GET" /\
    forall (res : Response) (blob : Blob) (pre key name post : string),
      network w call = Return res -> res_ok res = true ->
      (Response_blob res).1 = Return blob ->
      Headers_get "content-disposition" (res_headers res)
      = Some (pre ++ key ++ name ++ String dquote post) ->
      unquoted pre = true -> lower key = filename_key ->
      name <> "" -> unquoted name = true ->
      (apiDownload path fallbackFilename w).1 = Return (saved_as blob name).
Proof.
  intros Hw. rewrite apiDownload_run. cbv zeta. cbn [fst snd].
  destruct (window w) as [storage|]; [clear Hw|done].
  eexists. split; [reflexivity|]. split; [reflexivity|].
  intros res blob pre key name post -> -> -> -> Hpre Hkey Hne Hname. cbn [from_option id].
  rewrite exec_filename_quoted by done. by destruct (String.eqb_spec name "").
Qed.

Lemma apiDownload_uses_quoted_filename_witness :
  let disposition :=
    "attachment; FileName=" ++ String dquote ("report 2024-05.xlsx" ++ String dquote "") in
  let res :=
    mkResponse 200 "OK" [("Content-Disposition", disposition)]
      (Some (text_stream "PK")) in
  (apiDownload "/api/admin/export-report" None (browser ∅ (Return res))).1
  = Return (saved_as (mkBlob (CText "PK")) "report 2024-05.xlsx").
Proof.
  intros disposition res.
  destruct (apiDownload_uses_quoted_filename "/api/admin/export-report" None
              (browser ∅ (Return res))) as (call & _ & _ & Hsave); [discriminate|].
  apply (Hsave res (mkBlob (CText "PK")) "attachment; "
           ("FileName=" ++ String dquote "") "report 2024-05.xlsx" "");
    (reflexivity || discriminate).
Defined.

(** X12: in a browser, when the [content-disposition] header is absent
    or holds no double quote (so also for an unquoted
    [filename=report.csv]), [apiDownload] saves the body under the fallback name passed by the
    caller, and under [export.bin] when none, or an empty one, was
    passed. *)
Theorem apiDownload_falls_back
    (path : string) (fallbackFilename : option string) (w : World) :
  window w <> None ->
  exists call : FetchCall,
    sent (apiDownload path fallbackFilename w).2 = (sent w ++ [call])%list /\
    forall (res : Response) (blob : Blob),
      network w call = Return res -> res_ok res = true ->
      (Response_blob res).1 = Return blob ->
      unquoted (default "" (Headers_get "content-disposition" (res_headers res))) = true ->
      (apiDownload path fallbackFilename w).1
      = Return (saved_as blob
                  (match fallbackFilename with
                   | Some f => if String.eqb f "" then "export.bin" else f
                   | None => "export.bin"
                   end)).
Proof.
  intros Hw. rewrite apiDownload_run. cbv zeta. cbn [fst snd].
  destruct (window w) as [storage|]; [clear Hw|done].
  eexists. split; [reflexivity|].
  intros res blob -> -> -> Hd. by rewrite exec_filename_unquoted.
Qed.

Lemma apiDownload_falls_back_witness :
  let res :=
    mkResponse 200 "OK" [("content-disposition", "attachment; filename=report.csv")]
      (Some (text_stream "a,b")) in
  (apiDownload "/api/admin/export-report" (Some "day.csv") (browser ∅ (Return res))).1
  = Return (saved_as (mkBlob (CText "a,b")) "day.csv").
Proof.
  intros res.
  destruct (apiDownload_falls_back "/api/admin/export-report" (Some "day.csv")
              (browser ∅ (Return res))) as (call & _ & Hsave); [discriminate|].
  apply (Hsave res (mkBlob (CText "a,b"))); reflexivity.
Defined.

(** X13: when [apiDownload] returns, it has run in a browser and has
    saved the body of an ok response, once, under a name that is not
    empty, and has revoked the object URL it created; a response that is
    not ok is never saved: [apiDownload] throws what [fromResponse]
    yields for it, the [ApiError] it returns or else the error it
    raises. *)
Theorem apiDownload_saves_ok_bodies_only
    (path : string) (fallbackFilename : option string) (w : World) :
  exists call : FetchCall,
    sent (apiDownload path fallbackFilename w).2 = (sent w ++ [call])%list /\
    (forall trace : list dom_event,
        (apiDownload path fallbackFilename w).1 = Return trace ->
        window w <> None /\
        exists (res : Response) (blob : Blob) (name : string),
          network w call = Return res /\ res_ok res = true /\
          (Response_blob res).1 = Return blob /\
          trace = saved_as blob name /\ name <> "") /\
    (forall res : Response,
        network w call = Return res -> res_ok res = false ->
        (apiDownload path fallbackFilename w).1
        = match fromResponse res with
          | Return err => Throw (TApiError err)
          | Throw e => Throw e
          end /\
        (json_typed res = false ->
         exists err : ApiError, fromResponse res = Return err)).
Proof.
  rewrite apiDownload_run. cbv zeta. cbn [fst snd]. eexists. split; [reflexivity|]. split.
  - intros trace. cbn [sent].
    destruct (network w _) as [res|e]; [|done].
    destruct (res_ok res) eqn:Hok; [|by destruct (fromResponse res)].
    destruct (Response_blob res).1 as [blob|e] eqn:Hblob; [|done].
    destruct (window w) as [storage|]; [|done].
    intros [= <-]. split; [done|]. exists res, blob. eexists.
    split; [reflexivity|]. split; [done|]. split; [done|]. split; [reflexivity|].
    destruct (exec_filename _) as [name|] eqn:E.
    + apply exec_filename_sound in E as (Hne & _). by destruct (String.eqb_spec name "").
    + destruct fallbackFilename as [f|]; [|done]. by destruct (String.eqb_spec f "").
  - intros res -> ->. split; [done|]. apply fromResponse_text_returns.
Qed.

Lemma apiDownload_saves_ok_bodies_only_witness :
  let res :=
    mkResponse 404 "Not Found" [("content-type", "text/plain")]
      (Some (text_stream "No report for that day")) in
  (apiDownload "/api/admin/export-report" None (answering (Return res))).1
  = Throw (TApiError (mkApiError "No report for that day" 404
                        (VString "No report for that day"))).
Proof.
  intros res.
  destruct (apiDownload_saves_ok_bodies_only "/api/admin/export-report" None
              (answering (Return res))) as (call & _ & _ & Hfail).
  destruct (Hfail res eq_refl eq_refl) as [Hthrown _]. exact Hthrown.
Defined.

(** * frontend/lib/errors.ts: responses that are not declared as JSON *)

(** X14: for a response whose content type does not name
    [application/json], [fromResponse] never throws: it returns an
    [ApiError] with the status of the response and a message that is not
    empty, the body text when there is one and [API {status}:
    {statusText}] when the text is empty or the body cannot be read; the
    details are the text, and [undefined] when the body cannot be read. *)
Theorem fromResponse_text_never_throws (res : Response) :
  json_typed res = false ->
  exists err : ApiError,
    fromResponse res = Return err /\
    status err = res_status res /\
    message err <> "" /\
    match (Response_text res).1 with
    | Return text =>
        details err = VString text /\
        message err = (if String.eqb text "" then default_message res else text)
    | Throw _ =>
        details err = VUndefined /\ message err = default_message res
    end.
Proof.
  unfold fromResponse, json_typed. intros ->.
  destruct (Response_text res) as [[text|e] res']; cbn [fst].
  - unfold or_else. rewrite truthy_string.
    destruct (String.eqb_spec text "") as [->|Hne]; cbn [negb];
      eexists; (split; [reflexivity|]); cbn [status message details];
      repeat split; done.
  - eexists. split; [reflexivity|]. cbn [status message details]. repeat split; done.
Qed.

Lemma fromResponse_text_never_throws_witness :
  exists err : ApiError,
    fromResponse (mkResponse 502 "Bad Gateway" [("content-type", "text/html")]
                    (Some (mkStream (CText "<html>Bad Gateway</html>") true)))
    = Return err /\
    message err = "API 502: Bad Gateway" /\ details err = VUndefined.
Proof.
  set (res := mkResponse _ _ _ _).
  destruct (fromResponse_text_never_throws res eq_refl) as (err & Herr & _ & _ & Hbody).
  exists err. split; [exact Herr|]. destruct Hbody as [Hd Hm]. split; [exact Hm|exact Hd].
Defined.

(** X15: for a response declared as JSON whose body does not parse, or
    cannot be read, [fromResponse] returns the default message
    [API {status}: {statusText}] and no details; the text of the body is
    not kept, and after the attempt to parse it the text can be read only
    from a response without body. *)
Theorem fromResponse_json_unparsable (res : Response) (e : thrown) :
  json_typed res = true ->
  (Response_json res).1 = Throw e ->
  fromResponse res = Return (mkApiError (default_message res) (res_status res) VUndefined) /\
  forall text : string, (Response_text (Response_json res).2).1 = Return text -> res_body res = None.
Proof.
  intros Hjson Hthrow. split.
  - apply (fromResponse_unreadable_body res e). by rewrite Hjson.
  - revert Hthrow. unfold Response_json, Response_text, consume_body.
    destruct (res_body res) as [s|] eqn:Hb; [|done].
    destruct (disturbed s) eqn:Hd.
    + cbn [fst snd]. by rewrite Hb, Hd.
    + by destruct (stream_content s); cbn [fst snd with_body res_body disturbed].
Qed.

Lemma fromResponse_json_unparsable_witness :
  fromResponse (mkResponse 500 "Internal Server Error"
                  [("Content-Type", "application/json")]
                  (Some (text_stream "Traceback (most recent call last)")))
  = Return (mkApiError "API 500: Internal Server Error" 500 VUndefined).
Proof.
  set (res := mkResponse _ _ _ _).
  exact (proj1 (fromResponse_json_unparsable res (SyntaxError msg_json_parse) eq_refl eq_refl)).
Defined.

(** * The route handlers: every outcome of the upstream call *)

Section answers.
Local Open Scope list_scope.

(** Induction on values, with the elements of an array and the values of
    the properties of an object as induction hypotheses. *)
Lemma value_ind_nested (P : value -> Prop) :
  P VUndefined -> P VNull -> (forall b, P (VBool b)) -> (forall r, P (VNumber r)) ->
  (forall z, P (VBigInt z)) -> (forall s, P (VString s)) ->
  (forall elems, Forall P elems -> P (VArray elems)) ->
  (forall props, Forall (fun p => P p.2) props -> P (VObject props)) ->
  P VCycle ->
  forall v, P v.
Proof.
  intros Hundef Hnull Hbool Hnum Hbig Hstr Harr Hobj Hcyc.
  exact (fix go (v : value) : P v :=
           match v with
           | VUndefined => Hundef
           | VNull => Hnull
           | VBool b => Hbool b
           | VNumber r => Hnum r
           | VBigInt z => Hbig z
           | VString s => Hstr s
           | VArray elems =>
               Harr elems
                 ((fix all (l : list value) : Forall P l :=
                     match l with
                     | [] => @Stdlib.Lists.List.Forall_nil _ P
                     | x :: rest => @Stdlib.Lists.List.Forall_cons _ P x rest (go x) (all rest)
                     end) elems)
           | VObject props =>
               Hobj props
                 ((fix all (l : list (string * value)) : Forall (fun p => P p.2) l :=
                     match l with
                     | [] => @Stdlib.Lists.List.Forall_nil _ (fun p => P p.2)
                     | (k, x) :: rest =>
                         @Stdlib.Lists.List.Forall_cons _ (fun p => P p.2) (k, x) rest
                           (go x) (all rest)
                     end) props)
           | VCycle => Hcyc
           end).
Qed.

(** Listing the properties of an object in order neither adds nor drops
    one. *)
Lemma Forall_insert_by_index {A} (P : string * A -> Prop) n p
    (l : list (N * (string * A))) :
  P p -> Forall (fun q => P q.2) l -> Forall (fun q => P q.2) (insert_by_index n p l).
Proof.
  intros Hp. induction 1 as [|[m q] rest Hq Hrest IH]; cbn [insert_by_index].
  - by repeat constructor.
  - destruct (n <=? m)%N; repeat constructor; done.
Qed.

Lemma Forall_own_property_order {A} (P : string * A -> Prop) (l : list (string * A)) :
  Forall P l -> Forall P (own_property_order l).
Proof.
  intros H. unfold own_property_order. apply Forall_app. split.
  - assert (Hi : Forall (fun q => P q.2) (indexed_properties l)).
    { induction H as [|p rest Hp Hrest IH]; cbn [indexed_properties]; [constructor|].
      destruct (array_index p.1); [by apply Forall_insert_by_index|done]. }
    induction Hi; cbn [List.map]; by constructor.
  - induction H as [|p rest Hp Hrest IH]; cbn [named_properties]; [constructor|].
    destruct (array_index p.1); [done|by constructor].
Qed.

Lemma serialized_members_returns (l : list (string * completion (option string))) :
  Forall (fun p => exists o, p.2 = Return o) l ->
  exists ss, serialized_members l = Return ss.
Proof.
  induction 1 as [|[k c] rest [o Ho] Hrest [ss IH]]; cbn [serialized_members]; [by eauto|].
  cbn [snd] in Ho. rewrite Ho, IH. by eauto.
Qed.

(** What [JSON.parse] returns, [JSON.stringify] serializes. *)
Lemma is_json_serializable (v : value) :
  is_json v = true -> exists text : string, JSON_stringify v = Return (Some text).
Proof.
  unfold JSON_stringify. induction v using value_ind_nested; cbn [is_json serialize];
    try (by eauto); try done.
  - intros Hall.
    match goal with |- context [match ?items elems with Return _ => _ | Throw _ => _ end] =>
      assert (Hitems : exists ss, items elems = Return ss) end.
    { induction H as [|x rest Hx Hrest IH]; [by eauto|].
      cbn [forallb] in Hall. apply andb_prop in Hall as [Hx' Hrest'].
      destruct (Hx Hx') as [t ->]. destruct (IH Hrest') as [ss ->]. by eauto. }
    destruct Hitems as [ss ->]. by eauto.
  - intros Hall.
    match goal with |- context [serialized_members (own_property_order (?each props))] =>
      assert (Heach : Forall (fun p => exists o, p.2 = Return o) (each props)) end.
    { induction H as [|[k x] rest Hx Hrest IH]; [constructor|].
      cbn [forallb snd] in Hall, Hx. apply andb_prop in Hall as [Hx' Hrest'].
      destruct (Hx Hx') as [t Ht]. constructor; [|by apply IH].
      cbn [snd]. rewrite Ht. by eauto. }
    apply (Forall_own_property_order (fun p => exists o, p.2 = Return o)) in Heach.
    destruct (serialized_members_returns _ Heach) as [ss ->]. by eauto.
Qed.

(** [NextResponse.json] returns a JSON response or throws. *)
Lemma NextResponse_json_inv (data : value) (st : Z) (out : NextResponse) :
  NextResponse_json data st = Return out ->
  exists text : string,
    JSON_stringify data = Return (Some text) /\ out = json_response st text.
Proof.
  unfold NextResponse_json. destruct (JSON_stringify data) as [[text|]|e]; cbn; try done.
  unfold Response_initialize. destruct (_ || _); [done|].
  destruct (null_body_status st); [done|]. intros [= <-]. by exists text.
Qed.

Lemma NextResponse_json_internal (error : thrown) :
  exists body : string,
    JSON_stringify (payload_internal error) = Return (Some body) /\
    NextResponse_json (payload_internal error) 500 = Return (json_response 500 body).
Proof.
  destruct (payload_internal_text error) as [body Hp]. exists body. split; [done|].
  unfold NextResponse_json. by rewrite Hp.
Qed.

End answers.

(** X16: when the upstream call itself fails with [e], each handler
    writes one entry to the console, its label with [e], and answers at
    status 500 with the JSON of the internal-error payload, whose message
    is the message of [e] when [e] is an [Error] and [Unknown error]
    otherwise. *)
Theorem proxies_answer_transport_failure (request : Request) (w : World) :
  exists ca cb : FetchCall,
    sent (DaySummary.GET request w).2 = (sent w ++ [ca])%list /\
    sent (ExportReport.GET request w).2 = (sent w ++ [cb])%list /\
    (forall e : thrown,
        network w ca = Throw e ->
        exists body : string,
          JSON_stringify (payload_internal e) = Return (Some body) /\
          (DaySummary.GET request w).1 = Return (json_response 500 body) /\
          console (DaySummary.GET request w).2
          = (console w ++ [("Error in day-summary API route:", e)])%list) /\
    (forall e : thrown,
        network w cb = Throw e ->
        exists body : string,
          JSON_stringify (payload_internal e) = Return (Some body) /\
          (ExportReport.GET request w).1 = Return (json_response 500 body) /\
          console (ExportReport.GET request w).2
          = (console w ++ [("Error in export-report API route:", e)])%list).
Proof.
  eexists. eexists.
  split; [apply DaySummary_sent|]. split; [apply ExportReport_sent|].
  split; intros e He; destruct (NextResponse_json_internal e) as (body & Hp & Hout);
    exists body; (split; [exact Hp|]).
  - rewrite DaySummary_run. cbv zeta. rewrite He, Hout. by split.
  - rewrite ExportReport_run. cbv zeta. rewrite He, Hout. by split.
Qed.

Lemma proxies_answer_transport_failure_witness :
  let w := answering (Throw (TError "TypeError" "fetch failed")) in
  exists out : NextResponse,
    (ExportReport.GET (mkRequest "?from=2024-05-01" []) w).1 = Return out /\
    out_status out = 500 /\
    console (ExportReport.GET (mkRequest "?from=2024-05-01" []) w).2
    = [("Error in export-report API route:", TError "TypeError" "fetch failed")].
Proof.
  intros w.
  destruct (proxies_answer_transport_failure (mkRequest "?from=2024-05-01" []) w)
    as (ca & cb & _ & _ & _ & Hexport).
  destruct (Hexport (TError "TypeError" "fetch failed") eq_refl) as (body & _ & Hout & Hlog).
  exists (json_response 500 body). split; [exact Hout|]. split; [reflexivity|exact Hlog].
Defined.

(** X17: an upstream answer with a null body status (204, 205 or 304,
    which come without a body) is not relayed by the day-summary handler:
    parsing the empty body fails, the text read afterwards is empty, and
    building a JSON response at a null body status throws, so that the
    handler logs that [TypeError] and answers at status 500. *)
Theorem day_summary_null_body_status (request : Request) (w : World) :
  exists call : FetchCall,
    sent (DaySummary.GET request w).2 = (sent w ++ [call])%list /\
    forall res : Response,
      network w call = Return res -> fetched res ->
      null_body_status (res_status res) = true ->
      exists body : string,
        JSON_stringify (payload_internal (TypeError msg_null_body_status))
        = Return (Some body) /\
        (DaySummary.GET request w).1 = Return (json_response 500 body) /\
        console (DaySummary.GET request w).2
        = (console w ++ [("Error in day-summary API route:",
                          TypeError msg_null_body_status)])%list.
Proof.
  eexists. split; [apply DaySummary_sent|].
  intros res Hres (Hrange & Hnull & _) Hstatus.
  destruct (NextResponse_json_internal (TypeError msg_null_body_status))
    as (body & Hp & Hout).
  exists body. split; [exact Hp|].
  assert (Hfail : forall text,
             NextResponse_json (payload_unparsed text) (res_status res)
             = Throw (TypeError msg_null_body_status)).
  { intros text. unfold NextResponse_json, payload_unparsed, JSON_stringify.
    cbn [serialize mbind completion_bind default from_option id].
    unfold Response_initialize. by rewrite status_in_range, Hstatus by done. }
  rewrite DaySummary_run. cbv zeta. rewrite Hres.
  unfold Response_json, Response_text, consume_body. rewrite (Hnull Hstatus).
  cbn [fst snd]. rewrite (Hnull Hstatus). cbn [fst snd mbind completion_bind].
  rewrite !Hfail, Hout. by split.
Qed.

Lemma day_summary_null_body_status_witness :
  let w := answering (Return (mkResponse 204 "No Content" [] None)) in
  exists out : NextResponse,
    (DaySummary.GET (mkRequest "?date=2024-05-01" []) w).1 = Return out /\
    out_status out = 500.
Proof.
  intros w.
  destruct (day_summary_null_body_status (mkRequest "?date=2024-05-01" []) w)
    as (call & _ & Hrun).
  destruct (Hrun (mkResponse 204 "No Content" [] None) eq_refl) as (body & _ & Hout & _).
  { split; [simpl; lia|]. split; [reflexivity|discriminate]. }
  { reflexivity. }
  exists (json_response 500 body). split; [exact Hout|reflexivity].
Defined.

(** X18: for an upstream response as [fetch] delivers it (body unread,
    no body with a null body status) whose body parses as JSON, to any
    value that [JSON.parse] can return: when the status lies in 200 to
    599, the day-summary handler answers with that status, the content
    type [application/json] and the serialization of the parsed data as
    body, and writes nothing to the console; when the status lies outside
    200 to 599, it logs the [RangeError] of the response constructor and
    answers at status 500 with the internal-error payload. *)
Theorem day_summary_relays_parsed_body (request : Request) (w : World) :
  exists call : FetchCall,
    sent (DaySummary.GET request w).2 = (sent w ++ [call])%list /\
    forall (res : Response) (s : ReadableStream) (text : string) (json : value),
      network w call = Return res -> delivered res ->
      res_body res = Some s -> stream_content s = CJson text json ->
      is_json json = true ->
      exists body : string,
        JSON_stringify json = Return (Some body) /\
        (200 <= res_status res <= 599 ->
         (DaySummary.GET request w).1 = Return (json_response (res_status res) body) /\
         console (DaySummary.GET request w).2 = console w) /\
        (~ 200 <= res_status res <= 599 ->
         exists failure : string,
           JSON_stringify (payload_internal (RangeError msg_status_range))
           = Return (Some failure) /\
           (DaySummary.GET request w).1 = Return (json_response 500 failure) /\
           console (DaySummary.GET request w).2
           = (console w ++ [("Error in day-summary API route:",
                             RangeError msg_status_range)])%list).
Proof.
  eexists. split; [apply DaySummary_sent|].
  intros res s text json Hres (Hnull & Hfresh) Hbody Hjson Hdata.
  destruct (is_json_serializable json Hdata) as [body Hser].
  exists body. split; [exact Hser|].
  rewrite DaySummary_run. cbv zeta. rewrite Hres.
  unfold Response_json, consume_body. rewrite Hbody, (Hfresh s Hbody), Hjson.
  cbn -[NextResponse_json payload_internal]. split.
  - intros Hrange.
    assert (Hout : NextResponse_json json (res_status res)
                   = Return (json_response (res_status res) body)).
    { unfold NextResponse_json. rewrite Hser. cbn [mbind completion_bind].
      unfold Response_initialize. rewrite status_in_range by done.
      destruct (null_body_status (res_status res)) eqn:E; [|done].
      specialize (Hnull eq_refl). congruence. }
    rewrite Hout. by split.
  - intros Hrange.
    assert (Hout : NextResponse_json json (res_status res)
                   = Throw (RangeError msg_status_range)).
    { unfold NextResponse_json. rewrite Hser. cbn [mbind completion_bind].
      unfold Response_initialize.
      assert (Hr : (res_status res <? 200) || (599 <? res_status res) = true).
      { apply orb_true_iff. rewrite !Z.ltb_lt. lia. }
      by rewrite Hr. }
    rewrite Hout.
    destruct (NextResponse_json_internal (RangeError msg_status_range))
      as (failure & Hp & Hfailure).
    exists failure. split; [exact Hp|]. rewrite Hfailure. by split.
Qed.

Lemma day_summary_relays_parsed_body_witness :
  let data := VObject [("detail", VString "Day is not closed")] in
  let upstream :=
    mkResponse 409 "Conflict" [("content-type", "application/json")]
      (Some (json_stream data)) in
  exists out : NextResponse,
    (DaySummary.GET (mkRequest "?date=2024-05-01" []) (answering (Return upstream))).1
    = Return out /\
    out_status out = 409.
Proof.
  intros data upstream.
  destruct (day_summary_relays_parsed_body (mkRequest "?date=2024-05-01" [])
              (answering (Return upstream))) as (call & _ & Hrun).
  destruct (Hrun upstream (json_stream data)
              (match JSON_stringify data with Return (Some s) => s | _ => EmptyString end)
              data eq_refl) as (body & _ & Hrelay & _).
  { split; [discriminate|]. intros s Hs. injection Hs as <-. reflexivity. }
  { reflexivity. }
  { reflexivity. }
  { reflexivity. }
  destruct Hrelay as [Hout _]; [simpl; lia|].
  exists (json_response 409 body). split; [exact Hout|reflexivity].
Defined.

(** X19: whatever the day-summary handler answers is a JSON response:
    its only header is the content type [application/json], its body is a
    text, and its status is 500 or the status of the upstream response;
    the status is 500 whenever the handler has written to the console. *)
Theorem day_summary_answers_json_only
    (request : Request) (w : World) (out : NextResponse) :
  (DaySummary.GET request w).1 = Return out ->
  exists (call : FetchCall) (body : string),
    sent (DaySummary.GET request w).2 = (sent w ++ [call])%list /\
    out = json_response (out_status out) body /\
    (console (DaySummary.GET request w).2 = console w /\
     (exists res : Response, network w call = Return res /\ out_status out = res_status res)
     \/
     (exists e : thrown,
         console (DaySummary.GET request w).2
         = (console w ++ [("Error in day-summary API route:", e)])%list) /\
     out_status out = 500).
Proof.
  intros Hout. eexists. 
  assert (Hcaught : forall e w1 (r : completion NextResponse * World),
             r = (NextResponse_json (payload_internal e) 500,
                  (console_error "Error in day-summary API route:" e w1).2) ->
             r.1 = Return out ->
             exists body, out = json_response (out_status out) body /\ out_status out = 500 /\
                          console r.2
                          = (console w1 ++ [("Error in day-summary API route:", e)])%list).
  { intros e w1 r -> H. cbn [fst snd] in *.
    apply NextResponse_json_inv in H as (body & _ & ->). by exists body. }
  revert Hout. rewrite DaySummary_run. cbv zeta.
  destruct (network w _) as [res|e] eqn:Hnet.
  - destruct (match Response_json res with (Return _, _) => _ | (Throw _, _) => _ end)
      as [out'|e] eqn:Hinner.
    + intros [= ->].
      assert (exists body st, out = json_response st body /\ st = res_status res)
        as (body & st & -> & ->).
      { revert Hinner. destruct (Response_json res) as [[data|e] res'] eqn:Hj.
        - intros (body & _ & ->)%NextResponse_json_inv. by eauto.
        - destruct (Response_text res').1 as [text|e']; [|done]. cbn [mbind completion_bind].
          intros (body & _ & ->)%NextResponse_json_inv.
          exists body, (res_status res'). split; [done|].
          replace res' with (Response_json res).2 by by rewrite Hj.
          apply Response_json_status. }
      exists body. split; [done|]. split; [done|]. left. split; [done|]. by exists res.
    + intros H. eapply Hcaught in H as (body & Hb & Hs & Hc); [|reflexivity].
      exists body. split; [done|]. split; [done|]. right. split; [|done]. by exists e.
  - intros H. eapply Hcaught in H as (body & Hb & Hs & Hc); [|reflexivity].
    exists body. split; [done|]. split; [done|]. right. split; [|done]. by exists e.
Qed.

Lemma day_summary_answers_json_only_witness :
  let upstream :=
    mkResponse 200 "OK" [("content-type", "application/json")]
      (Some (json_stream (VArray [VNumber "1"; VNumber "2"]))) in
  let w := answering (Return upstream) in
  exists out : NextResponse,
    (DaySummary.GET (mkRequest "" []) w).1 = Return out /\
    Headers_get "content-type" (out_headers out) = Some "application/json".
Proof.
  intros upstream w.
  set (out := json_response 200 "[1,2]").
  assert (Hout : (DaySummary.GET (mkRequest "" []) w).1 = Return out) by reflexivity.
  destruct (day_summary_answers_json_only (mkRequest "" []) w out Hout)
    as (call & body & _ & Hjson & _).
  exists out. split; [exact Hout|]. rewrite Hjson. reflexivity.
Defined.

(** * frontend/lib/api.ts: what [apiFetch] sends and how it ends *)


